(** * EchoMate: a shallow embedding of the pipeline's sequential core

The development follows the Python sources module by module:
- [modules/memory/vectordb.py]   (module [VectorDB])
- [modules/memory/context.py]    (module [Context])
- [modules/ai/thinking.py]       (module [Thinking])
- [modules/speech/listener.py]   (module [Listener])
- [modules/speech/speaker.py]    (module [SpeakerQueue])
- [modules/utils/helpers.py]     (module [Helpers])

Python exceptions are values of [pyexc]; a call either returns or raises
([res]).  Everything the program reads from outside (the wall clock, the
ChromaDB collections, the language-model, search and speech backends) is
either a field of the [World] the computation threads through, or a
section variable, so every theorem holds for all behaviours of the
collaborators. *)

From Stdlib Require Import ZArith String Ascii List Lia Bool.
From stdpp Require Import base option list gmap sets strings pretty.

Set Warnings "-register-all".

(** ** Exceptions and results *)

(** A raised exception: its class name and the text [str(e)] yields. *)
Record pyexc := PyExc { exc_class : string; exc_str : string }.

Inductive res (A : Type) : Type :=
| Ret (a : A)
| Raise (e : pyexc).
Arguments Ret {A} a.
Arguments Raise {A} e.

Definition returns {A} (r : res A) : Prop := ∃ a, r = Ret a.

(** ** The outside world *)

(** [time.time()] is a float number of seconds; it is modelled by the integer
    number of microseconds it denotes.  The k-th read of the clock in a run
    yields [clock k]: nothing is assumed about successive reads.  [backend]
    is the state of the collaborators the module at hand calls into (the
    ChromaDB client for the memory modules, the language-model and search
    services for the thought cycle). *)
Record World (C : Type) := MkWorld {
  clock : nat → Z;
  reads : nat;
  backend : C
}.
Arguments MkWorld {C}.
Arguments clock {C}.
Arguments reads {C}.
Arguments backend {C}.

(** State-and-exception monad: the world survives a raise, as the effects of
    a Python call survive the exception it ends with. *)
Definition M (C A : Type) : Type := World C → res A * World C.

Definition ret {C A} (a : A) : M C A := λ w, (Ret a, w).
Definition raise {C A} (e : pyexc) : M C A := λ w, (Raise e, w).
Definition bind {C A B} (m : M C A) (k : A → M C B) : M C B :=
  λ w, match m w with
       | (Ret a, w') => k a w'
       | (Raise e, w') => (Raise e, w')
       end.
(** [try: m except Exception as e: h e] *)
Definition try_except {C A} (m : M C A) (h : pyexc → M C A) : M C A :=
  λ w, match m w with
       | (Ret a, w') => (Ret a, w')
       | (Raise e, w') => h e w'
       end.

Notation "'do' x <- m ; k" := (bind m (λ x, k))
  (at level 10, x pattern, m at level 100, k at level 200).

(** [time.time()] *)
Definition time_time {C} : M C Z :=
  λ w, (Ret (clock w (reads w)), MkWorld (clock w) (S (reads w)) (backend w)).

(** A call into a collaborator that owns the state [C]. *)
Definition call_backend {C A} (f : C → res A * C) : M C A :=
  λ w, let '(r, c) := f (backend w) in (r, MkWorld (clock w) (reads w) c).

(** [seq[i]] on a list: out of range raises [IndexError]. *)
Definition getitem {C A} (l : list A) (i : nat) : M C A :=
  match l !! i with
  | Some x => ret x
  | None => raise (PyExc "IndexError" "list index out of range")
  end.

(** ** modules/memory/vectordb.py *)

Module VectorDB.

Inductive partition := Conversations | References.

(** What a ChromaDB [collection.query] answers: one inner list per query
    text. *)
Record QueryResult := MkQueryResult {
  documents : list (list string);
  metadatas : list (list (gmap string string));
  ids : list (list string)
}.

(** One formatted search hit; [hit_text] is the ['text'] key for
    conversations and the ['content'] key for references. *)
Record Hit := MkHit {
  hit_text : string;
  hit_metadata : gmap string string;
  hit_id : string
}.

Section Backend.
(** The state of the ChromaDB client and what its two calls do.  Both may
    raise, and both may change the state. *)
Context {Chroma : Type}.
Variable collection_add :
  partition → string → gmap string string → string → Chroma → res unit * Chroma.
Variable collection_query :
  partition → string → Z → Chroma → res QueryResult * Chroma.
(** [time.strftime("%Y-%m-%d %H:%M:%S")] of a clock reading. *)
Variable strftime : Z → string.

Definition time_strftime : M Chroma string :=
  do t <- time_time; ret (strftime t).

(** [int(time.time() * 1000)]: milliseconds, truncated towards zero. *)
Definition millis (t : Z) : Z := Z.quot t 1000.

Definition add_conversation (text speaker : string)
    (metadata : option (gmap string string)) : M Chroma string :=
  let metadata := match metadata with
                  | Some m => if decide (m = ∅) then ∅ else m
                  | None => ∅
                  end in
  do t <- time_time;
  let entry_id := ("conv_" +:+ pretty (millis t))%string in
  do ts <- time_strftime;
  let metadata := <["timestamp" := ts]> (<["speaker" := speaker]> metadata) in
  do _ <- call_backend (collection_add Conversations text metadata entry_id);
  ret entry_id.

Definition add_reference (content url : string)
    (metadata : option (gmap string string)) : M Chroma string :=
  let metadata := match metadata with
                  | Some m => if decide (m = ∅) then ∅ else m
                  | None => ∅
                  end in
  do t <- time_time;
  let entry_id := ("ref_" +:+ pretty (millis t))%string in
  do ts <- time_strftime;
  let metadata := <["timestamp" := ts]> (<["url" := url]> metadata) in
  do _ <- call_backend (collection_add References content metadata entry_id);
  ret entry_id.

(** The formatting loop [for i in range(len(results['documents'][0]))]:
    [i] runs over the positions of [docs0] from [i] on. *)
Fixpoint format_results (results : QueryResult) (docs0 : list string) (i : nat)
    (formatted : list Hit) : M Chroma (list Hit) :=
  match docs0 with
  | [] => ret formatted
  | _ :: rest =>
      do d0 <- getitem (documents results) 0;
      do d <- getitem d0 i;
      do m0 <- getitem (metadatas results) 0;
      do m <- getitem m0 i;
      do i0 <- getitem (ids results) 0;
      do eid <- getitem i0 i;
      format_results results rest (S i) (formatted ++ [MkHit d m eid])
  end.

Definition search (p : partition) (query : string) (n_results : Z)
    : M Chroma (list Hit) :=
  do results <- call_backend (collection_query p query n_results);
  do docs0 <- getitem (documents results) 0;
  format_results results docs0 0 [].

Definition search_conversations := search Conversations.
Definition search_references := search References.

End Backend.

(** The hits a well-formed answer denotes: position by position, the
    document, its metadata and its id. *)
Fixpoint hits (docs : list string) (metas : list (gmap string string))
    (eids : list string) : list Hit :=
  match docs, metas, eids with
  | d :: docs', m :: metas', e :: eids' => MkHit d m e :: hits docs' metas' eids'
  | _, _, _ => []
  end.

(** A store whose [collection.add] always returns. *)
Definition add_never_raises {Chroma}
    (collection_add :
       partition → string → gmap string string → string → Chroma → res unit * Chroma)
    : Prop :=
  ∀ p doc meta eid c, ∃ c', collection_add p doc meta eid c = (Ret (), c').

End VectorDB.

(** ** modules/memory/context.py *)

Module Context.
Import VectorDB.

(** An entry of [recent_messages]. *)
Record Message := MkMessage {
  msg_id : string;
  msg_text : string;
  msg_speaker : string;
  msg_timestamp : Z
}.

(** An entry of [active_references]. *)
Record ActiveRef := MkActiveRef {
  ref_id : string;
  ref_url : string;
  ref_timestamp : Z
}.

(** The [current_context] dict. *)
Record CurrentContext := MkContext {
  participants : gset string;
  current_topic : option string;
  recent_messages : list Message;
  active_references : list ActiveRef
}.

(** A [ContextManager] object.  Its [vector_storage] attribute is a
    reference to the store the application shares with it: the store itself
    is the [backend] component of the world. *)
Record ContextManager := MkContextManager {
  current_context : CurrentContext;
  max_recent_messages : Z
}.

Definition empty_context : CurrentContext :=
  MkContext ∅ None [] [].

(** [__init__] *)
Definition init : ContextManager :=
  MkContextManager empty_context 10.

(** The recency window. *)
Definition window (self : ContextManager) : list Message :=
  recent_messages (current_context self).

(** The dict [get_relevant_context] returns. *)
Record Snapshot := MkSnapshot {
  recent_context : list Message;
  relevant_conversations : list Hit;
  relevant_references : list Hit;
  snap_participants : list string;
  snap_current_topic : option string
}.

(** The dict [get_conversation_summary] returns. *)
Record Summary := MkSummary {
  sum_participants : list string;
  sum_topic : option string;
  message_count : nat;
  reference_count : nat;
  duration : Z
}.

(** One [add_message] call as the application issues it. *)
Record Call := MkCall {
  call_text : string;
  call_speaker : string;
  call_metadata : option (gmap string string)
}.

(** One [add_reference] call as the application issues it. *)
Record RefCall := MkRefCall {
  refcall_content : string;
  refcall_url : string;
  refcall_metadata : option (gmap string string)
}.

Section Methods.
Context {Chroma : Type}.
Variable collection_add :
  partition → string → gmap string string → string → Chroma → res unit * Chroma.
Variable collection_query :
  partition → string → Z → Chroma → res QueryResult * Chroma.
Variable strftime : Z → string.

(** The body of [add_message]; besides the id and the updated manager it
    hands back the dict it appended, for the logs of [add_messages]. *)
Definition add_message_turn (text speaker : string)
    (metadata : option (gmap string string)) (self : ContextManager)
    : M Chroma (Message * ContextManager) :=
  do message_id <- add_conversation collection_add strftime text speaker metadata;
  let ctx := current_context self in
  let participants' := {[speaker]} ∪ participants ctx in
  do now <- time_time;
  let turn := MkMessage message_id text speaker now in
  let recent := recent_messages ctx ++ [turn] in
  let recent :=
    if (max_recent_messages self <? Z.of_nat (length recent))%Z
    then drop 1 recent else recent in
  ret (turn,
       MkContextManager
         (MkContext participants' (current_topic ctx) recent (active_references ctx))
         (max_recent_messages self)).

Definition add_message (text speaker : string)
    (metadata : option (gmap string string)) (self : ContextManager)
    : M Chroma (string * ContextManager) :=
  do r <- add_message_turn text speaker metadata self;
  ret (msg_id (fst r), snd r).

Definition add_reference (content url : string)
    (metadata : option (gmap string string)) (self : ContextManager)
    : M Chroma (string * ContextManager) :=
  do rid <- VectorDB.add_reference collection_add strftime content url metadata;
  let ctx := current_context self in
  do now <- time_time;
  ret (rid,
       MkContextManager
         (MkContext (participants ctx) (current_topic ctx) (recent_messages ctx)
            (active_references ctx ++ [MkActiveRef rid url now]))
         (max_recent_messages self)).

Definition get_relevant_context (query : string) (max_results : Z)
    (self : ContextManager) : M Chroma Snapshot :=
  do convs <- search_conversations collection_query query max_results;
  do refs <- search_references collection_query query max_results;
  let ctx := current_context self in
  ret (MkSnapshot (recent_messages ctx) convs refs
         (elements (participants ctx)) (current_topic ctx)).

Definition update_topic (topic : string) (self : ContextManager) : ContextManager :=
  let ctx := current_context self in
  MkContextManager
    (MkContext (participants ctx) (Some topic) (recent_messages ctx)
       (active_references ctx))
    (max_recent_messages self).

Definition clear_context (self : ContextManager) : ContextManager :=
  MkContextManager empty_context (max_recent_messages self).

(** The ['duration'] entry reads the clock, then either takes the first
    message's timestamp or reads the clock a second time. *)
Definition get_conversation_summary (self : ContextManager) : M Chroma Summary :=
  let ctx := current_context self in
  do t1 <- time_time;
  do t0 <- match recent_messages ctx with
           | m :: _ => ret (msg_timestamp m)
           | [] => time_time
           end;
  ret (MkSummary (elements (participants ctx)) (current_topic ctx)
         (length (recent_messages ctx)) (length (active_references ctx))
         (t1 - t0)%Z).

Definition get_active_references (self : ContextManager) : list ActiveRef :=
  active_references (current_context self).

Definition remove_reference (rid : string) (self : ContextManager) : ContextManager :=
  let ctx := current_context self in
  MkContextManager
    (MkContext (participants ctx) (current_topic ctx) (recent_messages ctx)
       (filter (λ r, ref_id r ≠ rid) (active_references ctx)))
    (max_recent_messages self).

(** A sequence of [add_message] calls; a call that raises leaves the
    manager as it was and the caller goes on with the next one.  The third
    component logs, in order, the turns the calls added. *)
Fixpoint add_messages (calls : list Call) (self : ContextManager)
    (w : World Chroma) : ContextManager * World Chroma * list Message :=
  match calls with
  | [] => (self, w, [])
  | c :: rest =>
      match add_message_turn (call_text c) (call_speaker c) (call_metadata c) self w with
      | (Ret (turn, self'), w') =>
          let '(self'', w'', added) := add_messages rest self' w' in
          (self'', w'', turn :: added)
      | (Raise _, w') => add_messages rest self w'
      end
  end.

(** A sequence of [add_reference] calls, a raising call being skipped as in
    [add_messages].  The third component logs the id and the url of each
    reference added. *)
Fixpoint add_references (calls : list RefCall) (self : ContextManager)
    (w : World Chroma) : ContextManager * World Chroma * list (string * string) :=
  match calls with
  | [] => (self, w, [])
  | c :: rest =>
      match add_reference (refcall_content c) (refcall_url c) (refcall_metadata c)
              self w with
      | (Ret (rid, self'), w') =>
          let '(self'', w'', added) := add_references rest self' w' in
          (self'', w'', (rid, refcall_url c) :: added)
      | (Raise _, w') => add_references rest self w'
      end
  end.

End Methods.

End Context.

(** ** modules/ai/thinking.py *)

Module Thinking.

(** The Python values [process_thought] handles are dynamically typed:
    what the crews and the search client hand back is not known
    statically.  The coroutines are awaited one after the other, so the
    cycle is sequential; the exceptions are those [except Exception]
    catches. *)
Inductive pyval :=
| PNone
| PBool (b : bool)
| PInt (z : Z)
| PStr (s : string)
| PList (l : list pyval)
| PDict (d : list (string * pyval)).

Definition type_name (v : pyval) : string :=
  match v with
  | PNone => "NoneType"
  | PBool _ => "bool"
  | PInt _ => "int"
  | PStr _ => "str"
  | PList _ => "list"
  | PDict _ => "dict"
  end.

(** Truth value of an object, as [if] and [or] test it. *)
Definition truthy (v : pyval) : bool :=
  match v with
  | PNone => false
  | PBool b => b
  | PInt z => negb (z =? 0)%Z
  | PStr s => negb (String.eqb s "")
  | PList l => match l with [] => false | _ => true end
  | PDict d => match d with [] => false | _ => true end
  end.

Fixpoint dict_lookup (d : list (string * pyval)) (k : string) : option pyval :=
  match d with
  | [] => None
  | (k', v) :: rest => if String.eqb k' k then Some v else dict_lookup rest k
  end.

Definition attribute_error (v : pyval) (attr : string) : pyexc :=
  PyExc "AttributeError"
    ("'" +:+ type_name v +:+ "' object has no attribute '" +:+ attr +:+ "'").

(** [v.get(k, default)]: only dicts have the method. *)
Definition py_get {C} (v : pyval) (k : string) (default : pyval) : M C pyval :=
  match v with
  | PDict d => ret (match dict_lookup d k with Some x => x | None => default end)
  | _ => raise (attribute_error v "get")
  end.

(** [v[k]] for a string key. *)
Definition py_getitem_key {C} (v : pyval) (k : string) : M C pyval :=
  match v with
  | PDict d => match dict_lookup d k with
               | Some x => ret x
               | None => raise (PyExc "KeyError" ("'" +:+ k +:+ "'"))
               end
  | PStr _ => raise (PyExc "TypeError" "string indices must be integers")
  | PList _ => raise (PyExc "TypeError" "list indices must be integers or slices, not str")
  | _ => raise (PyExc "TypeError" ("'" +:+ type_name v +:+ "' object is not subscriptable"))
  end.

(** [v[0]] *)
Definition py_getitem_0 {C} (v : pyval) : M C pyval :=
  match v with
  | PList (x :: _) => ret x
  | PList [] => raise (PyExc "IndexError" "list index out of range")
  | PStr (String c _) => ret (PStr (String c ""))
  | PStr "" => raise (PyExc "IndexError" "string index out of range")
  | PDict _ => raise (PyExc "KeyError" "0")
  | _ => raise (PyExc "TypeError" ("'" +:+ type_name v +:+ "' object is not subscriptable"))
  end.

Fixpoint chars (s : string) : list pyval :=
  match s with
  | "" => []
  | String c s' => PStr (String c "") :: chars s'
  end.

(** The items [for result in v] runs over. *)
Definition py_iter {C} (v : pyval) : M C (list pyval) :=
  match v with
  | PList l => ret l
  | PDict d => ret (map (λ kv, PStr (fst kv)) d)
  | PStr s => ret (chars s)
  | _ => raise (PyExc "TypeError" ("'" +:+ type_name v +:+ "' object is not iterable"))
  end.

Definition is_str (v : pyval) (s : string) : bool :=
  match v with
  | PStr s' => String.eqb s' s
  | _ => false
  end.

(** [for x in l]: run [f] on every item, collecting the results. *)
Fixpoint mapM {C A B} (f : A → M C B) (l : list A) : M C (list B) :=
  match l with
  | [] => ret []
  | x :: rest => do y <- f x; do ys <- mapM f rest; ret (y :: ys)
  end.

Section Engine.
(** The state the three backends share and what a call to each does.
    [analysis_crew_run] and [response_crew_run] stand for building the
    task description (the [json.dumps] calls included), building the crew
    and awaiting its [run()]; [tavily_search] for the client's [search]. *)
Context {B : Type}.
Variable analysis_crew_run : pyval → string → B → res pyval * B.
Variable tavily_search : pyval → B → res pyval * B.
Variable response_crew_run : pyval → pyval → pyval → B → res pyval * B.

Definition _search_internet (query : pyval) : M B pyval :=
  try_except
    (do search_result <- call_backend (tavily_search query);
     ret (PDict [("results", search_result); ("status", PStr "success")]))
    (λ e, ret (PDict [("error", PStr (exc_str e)); ("status", PStr "error")])).

Definition _analyze_context (context : pyval) (current_discussion : string)
    : M B pyval :=
  try_except
    (do result <- call_backend (analysis_crew_run context current_discussion);
     ret (PDict [("analysis", result); ("status", PStr "success")]))
    (λ e, ret (PDict [("error", PStr (exc_str e)); ("status", PStr "error")])).

Definition _generate_response (context analysis search_results : pyval)
    : M B pyval :=
  try_except
    (call_backend (response_crew_run context analysis search_results))
    (λ e, ret (PStr ("Error generating response: " +:+ exc_str e))).

Definition query_value (query : option string) : pyval :=
  match query with
  | Some q => PStr q
  | None => PNone
  end.

(** The [try] block of [process_thought]. *)
Definition process_thought_body (context : pyval) (current_discussion : string)
    (query : option string) : M B (pyval * list pyval) :=
  do analysis <- _analyze_context context current_discussion;
  do needed <-
    (if truthy (query_value query) then ret true
     else do a <- py_get analysis "analysis" (PDict []);
          do areas <- py_get a "areas_needing_clarification" PNone;
          ret (truthy areas));
  do search_results <-
    (if needed : bool then
       do search_query <-
         (if truthy (query_value query) then ret (query_value query)
          else do a <- py_getitem_key analysis "analysis";
               do areas <- py_getitem_key a "areas_needing_clarification";
               py_getitem_0 areas);
       _search_internet search_query
     else ret PNone);
  do response <- _generate_response context analysis search_results;
  do references <-
    (if truthy search_results then
       do status <- py_get search_results "status" PNone;
       if is_str status "success" then
         do results <- py_get search_results "results" (PList []);
         do items <- py_iter results;
         mapM (λ result,
               do title <- py_get result "title" (PStr "");
               do url <- py_get result "url" (PStr "");
               do snippet <- py_get result "snippet" (PStr "");
               ret (PDict [("title", title); ("url", url); ("snippet", snippet)]))
           items
       else ret []
     else ret []);
  ret (response, references).

Definition process_thought (context : pyval) (current_discussion : string)
    (query : option string) : M B (pyval * list pyval) :=
  try_except
    (process_thought_body context current_discussion query)
    (λ e, ret (PStr ("Error in thought process: " +:+ exc_str e), [])).

End Engine.

Definition is_dict (v : pyval) : bool :=
  match v with
  | PDict _ => true
  | _ => false
  end.

(** The reference [process_thought] makes of one search result that is a
    dict: its title, url and snippet, the empty string standing for a
    missing one. *)
Definition reference_of (result : pyval) : pyval :=
  match result with
  | PDict d =>
      PDict [("title", default (PStr "") (dict_lookup d "title"));
             ("url", default (PStr "") (dict_lookup d "url"));
             ("snippet", default (PStr "") (dict_lookup d "snippet"))]
  | _ => PNone
  end.

(** A backend call that returns [r] whatever the backend's state. *)
Definition answers {B A} (f : B → res A * B) (r : A) : Prop :=
  ∀ b, ∃ b', f b = (Ret r, b').

(** A backend call that raises whatever the backend's state. *)
Definition raises {B A} (f : B → res A * B) : Prop :=
  ∀ b, ∃ e b', f b = (Raise e, b').

(** The two texts [process_thought] answers with when it could not produce
    a reply. *)
Definition error_description (text : string) : Prop :=
  ∃ e, text = "Error generating response: " +:+ exc_str e ∨
       text = "Error in thought process: " +:+ exc_str e.

End Thinking.

(** ** modules/speech/listener.py *)

Module Listener.

(** An audio block the device hands to the callback: its samples. *)
Definition Frame := list Z.

(** The attributes of an [AudioListener] the callback and the processing
    loop touch, and the lines they print.  [audio_queue] is built by
    [queue.Queue()] with no [maxsize]: [put] appends and cannot find the
    queue full. *)
Record AudioListener := MkListener {
  sample_rate : Z;
  audio_queue : list Frame;
  is_listening : bool;
  printed : list string
}.

(** [__init__] (the callback, the language and the Whisper model are
    collaborators of the processing loop). *)
Definition init (sample_rate : Z) : AudioListener :=
  MkListener sample_rate [] false [].

Definition print (line : string) (self : AudioListener) : AudioListener :=
  MkListener (sample_rate self) (audio_queue self) (is_listening self)
    (printed self ++ [line]).

Definition put (frame : Frame) (self : AudioListener) : AudioListener :=
  MkListener (sample_rate self) (audio_queue self ++ [frame]) (is_listening self)
    (printed self).

(** One invocation of the device callback: the block, whether the test
    [status and status.flags.input_overflow] holds, whether [indata.copy()]
    raises, and whether the random draw asks for the statistics line. *)
Record CallbackArgs := MkCallbackArgs {
  indata : Frame;
  input_overflow : bool;
  copy_raises : option pyexc;
  draw_below_tenth : bool
}.

Definition audio_callback (a : CallbackArgs) (self : AudioListener) : AudioListener :=
  let self := if input_overflow a then print "Audio input overflow" self else self in
  if is_listening self then
    match copy_raises a with
    | Some e => print ("Error in audio callback: " +:+ exc_str e) self
    | None =>
        let self := put (indata a) self in
        if draw_below_tenth a then
          match indata a with
          | [] => (* [np.max] of an empty array raises *)
              print "Error in audio callback: zero-size array to reduction operation maximum which has no identity" self
          | _ => print "Audio input: shape, max_amplitude" self
          end
        else self
    end
  else self.

(** A run of callback invocations. *)
Definition audio_callbacks (calls : list CallbackArgs) (self : AudioListener)
    : AudioListener :=
  fold_left (λ st a, audio_callback a st) calls self.

(** [start()] as far as the flag goes. *)
Definition start (self : AudioListener) : AudioListener :=
  MkListener (sample_rate self) (audio_queue self) true (printed self).

(** The blocks of the invocations whose copy succeeded, in order. *)
Definition copied (calls : list CallbackArgs) : list Frame :=
  omap (λ a, match copy_raises a with
             | None => Some (indata a)
             | Some _ => None
             end) calls.

(** How many times [line] was printed. *)
Definition count_line (line : string) (lines : list string) : nat :=
  length (filter (λ l, l = line) lines).

(** How many invocations came with an input-overflow status. *)
Definition overflows (calls : list CallbackArgs) : nat :=
  length (filter (λ a, input_overflow a = true) calls).

(** What the processing thread observes during one collection cycle.  The
    queue and the flag are shared with the callback thread and with
    [stop()], so each read is an observation of the environment:
    [flag_at i] is the flag at the head of iteration [i] of the collecting
    loop, [get_at i] what [audio_queue.get(timeout=0.5)] yields there
    ([None] for [queue.Empty]), [flag_after] the flag read once the loop is
    over, [write_raises] whether concatenating and writing the temporary
    file raises, [transcribe_result] what Whisper answers. *)
Record CycleEnv := MkCycleEnv {
  flag_at : nat → bool;
  get_at : nat → option Frame;
  flag_after : bool;
  write_raises : option pyexc;
  transcribe_result : res string
}.

(** [int(self.sample_rate * 2 / 1024)] *)
Definition iterations (sample_rate : Z) : nat :=
  Z.to_nat (Z.quot (sample_rate * 2) 1024).

(** The collecting loop, from iteration [i], with [n] iterations left. *)
Fixpoint collect (env : CycleEnv) (n i : nat) (audio_data : list Frame) : list Frame :=
  match n with
  | 0 => audio_data
  | S n' =>
      if negb (flag_at env i) then audio_data
      else match get_at env i with
           | Some chunk =>
               if (0 <? Z.of_nat (length chunk))%Z
               then collect env n' (S i) (audio_data ++ [chunk])
               else collect env n' (S i) audio_data
           | None => collect env n' (S i) audio_data
           end
  end.

(** What one pass of the [while] body does that is visible outside. *)
Record CycleResult := MkCycleResult {
  collected : list Frame;
  transcribe_calls : list (list Z);
  callback_texts : list string
}.

(** [str.strip()] is a collaborator here: only its result matters. *)
Section Cycle.
Variable strip : string → string.

Definition cycle (sample_rate : Z) (env : CycleEnv) : CycleResult :=
  let audio_data := collect env (iterations sample_rate) 0 [] in
  match audio_data with
  | [] => MkCycleResult audio_data [] []
  | _ =>
      if flag_after env then
        let audio_concat := concat audio_data in
        match write_raises env with
        | Some _ => MkCycleResult audio_data [] []
        | None =>
            match transcribe_result env with
            | Ret text =>
                if negb (String.eqb (strip text) "")
                then MkCycleResult audio_data [audio_concat] [strip text]
                else MkCycleResult audio_data [audio_concat] []
            | Raise _ => MkCycleResult audio_data [audio_concat] []
            end
        end
      else MkCycleResult audio_data [] []
  end.
End Cycle.

(** How many iterations of the collecting loop, from iteration [i] with
    [n] left, get past the flag test. *)
Fixpoint iterations_run (env : CycleEnv) (n i : nat) : nat :=
  match n with
  | 0 => 0
  | S n' => if flag_at env i then S (iterations_run env n' (S i)) else 0
  end.

(** Seconds of audio in the frames, times the sample rate: their number of
    samples. *)
Definition total_samples (frames : list Frame) : Z :=
  Z.of_nat (length (concat frames)).

End Listener.

(** ** modules/speech/speaker.py *)

Module SpeakerQueue.

(** Where the worker thread stands in one pass of its loop. *)
Inductive WorkerPc :=
| AtLoopHead                 (* about to test [self.is_speaking] *)
| AtGet                      (* about to call [speech_queue.get] *)
| AtConvert (text : string)  (* holds [text], about to synthesise it *)
| AtPlay (text : string)     (* inside [play(audio)] *)
| AtSleep                    (* in the delay after a playback *)
| Exited.

(** What happens, in the order it happens. *)
Inductive Event :=
| Enqueued (text : string)
| Dequeued (text : string)
| SynthesisFailed (text : string)   (* [convert] raised: logged, no playback *)
| PlayStart (text : string)         (* [play(audio)] is entered *)
| PlayEnd (text : string).          (* [play(audio)] is left, by return or raise *)

Record Speaker := MkSpeaker {
  speech_queue : list string;
  is_speaking : bool;
  worker : WorkerPc;
  trace : list Event
}.

(** The state right after [start()] on a new speaker. *)
Definition started : Speaker := MkSpeaker [] true AtLoopHead [].

Definition emit (e : Event) (self : Speaker) : Speaker :=
  MkSpeaker (speech_queue self) (is_speaking self) (worker self) (trace self ++ [e]).

Definition goto (pc : WorkerPc) (self : Speaker) : Speaker :=
  MkSpeaker (speech_queue self) (is_speaking self) pc (trace self).

(** [speak(text)], called from the application's thread. *)
Definition speak (text : string) (self : Speaker) : Speaker :=
  if String.eqb text "" then self
  else emit (Enqueued text)
         (MkSpeaker (speech_queue self ++ [text]) (is_speaking self) (worker self)
            (trace self)).

(** [stop()] as far as the flag goes. *)
Definition stop (self : Speaker) : Speaker :=
  MkSpeaker (speech_queue self) false (worker self) (trace self).

(** One move of the worker thread.  [convert_ok] and [play_ok] say whether
    the synthesis call and the playback call return or raise when the move
    is one of those. *)
Definition worker_step (convert_ok play_ok : bool) (self : Speaker) : Speaker :=
  match worker self with
  | AtLoopHead => if is_speaking self then goto AtGet self else goto Exited self
  | AtGet =>
      match speech_queue self with
      | [] => goto AtLoopHead self                      (* [queue.Empty]: continue *)
      | text :: rest =>
          let self := MkSpeaker rest (is_speaking self) (worker self) (trace self) in
          let self := emit (Dequeued text) self in
          if String.eqb text "" then goto AtLoopHead self
          else goto (AtConvert text) self
      end
  | AtConvert text =>
      if convert_ok then goto (AtPlay text) (emit (PlayStart text) self)
      else goto AtLoopHead (emit (SynthesisFailed text) self)
  | AtPlay text =>
      if play_ok then goto AtSleep (emit (PlayEnd text) self)
      else goto AtLoopHead (emit (PlayEnd text) self)
  | AtSleep => goto AtLoopHead self
  | Exited => self
  end.

(** The threads' moves, interleaved in any order. *)
Inductive Action :=
| Speak (text : string)
| Stop
| Worker (convert_ok play_ok : bool).

Definition step (a : Action) (self : Speaker) : Speaker :=
  match a with
  | Speak text => speak text self
  | Stop => stop self
  | Worker c p => worker_step c p self
  end.

Definition run (schedule : list Action) (self : Speaker) : Speaker :=
  fold_left (λ st a, step a st) schedule self.

(** Projections of a trace. *)
Definition enqueued (t : list Event) : list string :=
  omap (λ e, match e with Enqueued x => Some x | _ => None end) t.
Definition dequeued (t : list Event) : list string :=
  omap (λ e, match e with Dequeued x => Some x | _ => None end) t.
Definition played (t : list Event) : list string :=
  omap (λ e, match e with PlayStart x => Some x | _ => None end) t.
Definition finished (t : list Event) : list string :=
  omap (λ e, match e with PlayEnd x => Some x | _ => None end) t.
(** The dequeued texts whose synthesis has been attempted, each with
    whether it succeeded. *)
Definition outcomes (t : list Event) : list (string * bool) :=
  omap (λ e, match e with
             | PlayStart x => Some (x, true)
             | SynthesisFailed x => Some (x, false)
             | _ => None
             end) t.
(** The text the worker holds and has not tried to synthesise yet. *)
Definition pending (pc : WorkerPc) : list string :=
  match pc with
  | AtConvert x => [x]
  | _ => []
  end.

(** Playbacks begun and not yet over. *)
Definition active (t : list Event) : Z :=
  (Z.of_nat (length (played t)) - Z.of_nat (length (finished t)))%Z.

(** The texts the application passed to [speak], in call order. *)
Definition spoken (schedule : list Action) : list string :=
  omap (λ a, match a with Speak x => Some x | _ => None end) schedule.

(** The texts [speak] puts on the queue: the non-empty ones. *)
Definition accepted (texts : list string) : list string :=
  filter (λ x, x ≠ "") texts.

(** How an event changes the number of active playbacks. *)
Definition delta (e : Event) : Z :=
  match e with
  | PlayStart _ => 1
  | PlayEnd _ => -1
  | _ => 0
  end.

(** A trace in which playbacks do not overlap: wherever an item is taken
    off the queue or a playback starts, none is active, and a playback that
    ends is the one active. *)
Definition serial (t : list Event) : Prop :=
  ∀ t1 e t2, t = t1 ++ e :: t2 →
    match e with
    | Dequeued _ | PlayStart _ => active t1 = 0%Z
    | PlayEnd _ => active t1 = 1%Z
    | _ => True
    end.

(** What holds of the speaker after the moves of [schedule]. *)
Definition invariant (schedule : list Action) (self : Speaker) : Prop :=
  enqueued (trace self) = accepted (spoken schedule) ∧
  dequeued (trace self) ++ speech_queue self = enqueued (trace self) ∧
  map fst (outcomes (trace self)) ++ pending (worker self) = dequeued (trace self) ∧
  Forall (λ x, x ≠ "") (speech_queue self) ∧
  active (trace self) = (match worker self with AtPlay _ => 1 | _ => 0 end)%Z ∧
  serial (trace self).

End SpeakerQueue.

(** ** modules/utils/helpers.py *)

Module Helpers.

(** Characters are code points below 256; the ones [str.isspace] accepts. *)
Definition is_space (c : ascii) : bool :=
  let n := nat_of_ascii c in
  ((9 <=? n) && (n <=? 13)) || ((28 <=? n) && (n <=? 32)) || (n =? 133) || (n =? 160).

(** [text.split()]: the maximal runs of non-space characters.  [cur] is the
    run being read. *)
Fixpoint split_from (cur : string) (text : string) : list string :=
  match text with
  | EmptyString => if String.eqb cur "" then [] else [cur]
  | String c rest =>
      if is_space c then
        if String.eqb cur "" then split_from "" rest else cur :: split_from "" rest
      else split_from (cur +:+ String c "") rest
  end.

Definition split (text : string) : list string := split_from "" text.

(** [sep.join(words)] *)
Fixpoint join (sep : string) (words : list string) : string :=
  match words with
  | [] => ""
  | [w] => w
  | w :: rest => w +:+ sep +:+ join sep rest
  end.

(** [len(s)] *)
Definition len (s : string) : Z := Z.of_nat (String.length s).

(** The [for word in words] loop of [chunk_text] and the flush after it. *)
Fixpoint chunk_loop (words : list string) (chunk_size : Z)
    (chunks : list string) (current_chunk : list string) (current_size : Z)
    : list string :=
  match words with
  | [] =>
      match current_chunk with
      | [] => chunks
      | _ => chunks ++ [join " " current_chunk]
      end
  | word :: rest =>
      let word_size := (len word + 1)%Z in
      if (chunk_size <? current_size + word_size)%Z
      then chunk_loop rest chunk_size (chunks ++ [join " " current_chunk]) [word] word_size
      else chunk_loop rest chunk_size chunks (current_chunk ++ [word])
             (current_size + word_size)%Z
  end.

Definition chunk_text (text : string) (chunk_size : Z) : list string :=
  chunk_loop (split text) chunk_size [] [] 0.

(** A string without any space character. *)
Fixpoint no_space (s : string) : bool :=
  match s with
  | EmptyString => true
  | String c rest => negb (is_space c) && no_space rest
  end.

(** What [split] produces: non-empty and free of spaces. *)
Definition is_word (w : string) : Prop := w ≠ "" ∧ no_space w = true.

(** What a list of words adds to [current_size]. *)
Fixpoint size_of (words : list string) : Z :=
  match words with
  | [] => 0
  | w :: rest => len w + 1 + size_of rest
  end.

(** What the loop guarantees of a group of words it made a chunk of. *)
Definition group_ok (chunk_size : Z) (group : list string) : Prop :=
  (2 ≤ length group → (size_of group ≤ chunk_size)%Z) ∧
  (∀ w, w ∈ group → (chunk_size < len w)%Z → group = [w]).

(** [s.lstrip()], [s.rstrip()] and [s.strip()] *)
Fixpoint lstrip (s : string) : string :=
  match s with
  | EmptyString => ""
  | String c rest => if is_space c then lstrip rest else s
  end.

Fixpoint rstrip (s : string) : string :=
  match s with
  | EmptyString => ""
  | String c rest =>
      match rstrip rest with
      | EmptyString => if is_space c then "" else String c ""
      | kept => String c kept
      end
  end.

Definition strip (s : string) : string := lstrip (rstrip s).

(** Whether every character of [s] passes [test]. *)
Fixpoint all_chars (test : ascii → bool) (s : string) : bool :=
  match s with
  | EmptyString => true
  | String c rest => test c && all_chars test rest
  end.

Section Sanitize.
(** The characters the class [\w] of the regular-expression engine
    accepts. *)
Variable word_char : ascii → bool.

(** The characters the pattern [[^\w\s.,!?-]] does not match, that is,
    those [re.sub] keeps. *)
Definition kept (c : ascii) : bool :=
  word_char c || is_space c
  || Ascii.eqb c "." || Ascii.eqb c "," || Ascii.eqb c "!"
  || Ascii.eqb c "?" || Ascii.eqb c "-".

(** [re.sub(r'[^\w\s.,!?-]', '', text)] *)
Fixpoint remove_special (text : string) : string :=
  match text with
  | EmptyString => ""
  | String c rest =>
      if kept c then String c (remove_special rest) else remove_special rest
  end.

Definition sanitize_text (text : string) : string :=
  let text := remove_special text in
  let text := join " " (split text) in
  strip text.

End Sanitize.

End Helpers.

(** ** modules/ai/search.py *)

Module Search.
Import Thinking.

(** The [search_params] dict: the two domain lists are present only when
    given and non-empty. *)
Record SearchParams := MkSearchParams {
  sp_query : string;
  sp_search_depth : string;
  sp_max_results : Z;
  sp_include_domains : option (list string);
  sp_exclude_domains : option (list string)
}.

(** An entry of [search_history]: the record of a search that returned, or
    the error response of one that did not. *)
Inductive HistoryItem :=
| SearchRecord (timestamp query : string) (parameters : SearchParams)
    (results_count : Z)
| ErrorRecord (error query timestamp : string).

(** [item.get('query', '')]: both kinds of entry have the key. *)
Definition item_query (item : HistoryItem) : string :=
  match item with
  | SearchRecord _ query _ _ => query
  | ErrorRecord _ query _ => query
  end.

Record SearchEngine := MkSearchEngine {
  search_history : list HistoryItem
}.

(** What [search] returns: the success dict with its results and metadata,
    or the error response. *)
Inductive SearchResponse :=
| Success (results : pyval) (metadata : HistoryItem)
| Failure (error_response : HistoryItem).

(** The history entry a response carries. *)
Definition response_record (response : SearchResponse) : HistoryItem :=
  match response with
  | Success _ metadata => metadata
  | Failure error_response => error_response
  end.

(** [len(v)] *)
Definition py_len {C} (v : pyval) : M C Z :=
  match v with
  | PStr s => ret (Z.of_nat (String.length s))
  | PList l => ret (Z.of_nat (length l))
  | PDict d => ret (Z.of_nat (length d))
  | _ => raise (PyExc "TypeError"
                  ("object of type '" +:+ type_name v +:+ "' has no len()"))
  end.

(** A domain list as [if domains:] lets it into the parameters. *)
Definition given (domains : option (list string)) : option (list string) :=
  match domains with
  | Some (d :: ds) => Some (d :: ds)
  | _ => None
  end.

Section Engine.
(** The Tavily client, and [datetime.isoformat] of a clock reading. *)
Context {B : Type}.
Variable client_search : SearchParams → B → res pyval * B.
Variable isoformat : Z → string.

Definition search (query search_depth : string) (max_results : Z)
    (include_domains exclude_domains : option (list string))
    (self : SearchEngine) : M B (SearchResponse * SearchEngine) :=
  try_except
    (let search_params :=
       MkSearchParams query search_depth max_results
         (given include_domains) (given exclude_domains) in
     do results <- call_backend (client_search search_params);
     do now <- time_time;
     do results_count <- (if truthy results then py_len results else ret 0%Z);
     let search_record :=
       SearchRecord (isoformat now) query search_params results_count in
     ret (Success results search_record,
          MkSearchEngine (search_history self ++ [search_record])))
    (λ e,
     do now <- time_time;
     let error_response := ErrorRecord (exc_str e) query (isoformat now) in
     ret (Failure error_response,
          MkSearchEngine (search_history self ++ [error_response]))).

(** [batch_search]: the searches have no suspension point, so the gathered
    tasks run one after the other, in the order of the queries. *)
Fixpoint batch_search (queries : list string) (search_depth : string)
    (max_results : Z) (include_domains exclude_domains : option (list string))
    (self : SearchEngine) : M B (list SearchResponse * SearchEngine) :=
  match queries with
  | [] => ret ([], self)
  | query :: rest =>
      do r <- search query search_depth max_results include_domains
                exclude_domains self;
      do rs <- batch_search rest search_depth max_results include_domains
                 exclude_domains (snd r);
      ret (fst r :: fst rs, snd rs)
  end.

End Engine.

(** [needle in hay] on strings. *)
Fixpoint contains (needle hay : string) : bool :=
  match hay with
  | EmptyString => String.prefix needle ""
  | String _ rest => String.prefix needle hay || contains needle rest
  end.

(** [l[-limit:]] for a non-zero [limit]: the last [limit] items when it is
    positive, all but the first [-limit] when it is negative. *)
Definition last_items {A} (limit : Z) (l : list A) : list A :=
  if (0 <? limit)%Z then drop (length l - Z.to_nat limit) l
  else drop (Z.to_nat (- limit)) l.

Section History.
(** [str.lower] is a collaborator here: only its results matter. *)
Variable lower : string → string.

Definition matches (query_filter : string) (item : HistoryItem) : bool :=
  contains (lower query_filter) (lower (item_query item)).

Definition get_search_history (limit : option Z) (query_filter : option string)
    (self : SearchEngine) : list HistoryItem :=
  let history := search_history self in
  let history :=
    match query_filter with
    | Some f =>
        if String.eqb f "" then history
        else filter (λ item, matches f item = true) history
    | None => history
    end in
  match limit with
  | Some n => if (n =? 0)%Z then history else last_items n history
  | None => history
  end.

End History.

Definition clear_history (self : SearchEngine) : SearchEngine :=
  MkSearchEngine [].

(** [s.split(sep)] for a one-character separator: never the empty list. *)
Fixpoint split_on (sep : ascii) (s : string) : list string :=
  match s with
  | EmptyString => [EmptyString]
  | String c rest =>
      if Ascii.eqb c sep then EmptyString :: split_on sep rest
      else match split_on sep rest with
           | [] => [String c EmptyString]
           | part :: parts => String c part :: parts
           end
  end.

(** [url.split('/')[2] if len(url.split('/')) > 2 else url] *)
Definition domain_of (url : string) : string :=
  let parts := split_on "/" url in
  if 2 <? length parts then default url (parts !! 2) else url.

(** [key in v] for a string key: a key of a dict, a substring of a string,
    an item of a list. *)
Definition py_contains {C} (key : string) (v : pyval) : M C bool :=
  match v with
  | PDict d => ret (bool_decide (is_Some (dict_lookup d key)))
  | PStr s => ret (contains key s)
  | PList l => ret (existsb (λ x, is_str x key) l)
  | _ => raise (PyExc "TypeError"
                  ("argument of type '" +:+ type_name v +:+ "' is not iterable"))
  end.

(** The [analysis] dict the loop of [analyze_results] fills; the set of
    domains is a finite set, as in the source. *)
Record Tally := MkTally {
  total_results : Z;
  domains : gset string;
  topics : list pyval;
  summary : list pyval
}.

(** What [analyze_results] returns: the analysis, whose [unique_domains] is
    the set turned into a list (in no specified order, without repeats,
    hence kept as the set), or the error response. *)
Inductive AnalysisResponse :=
| Analyzed (total_results : Z) (unique_domains : gset string)
    (key_topics summary_points : list pyval)
| AnalysisError (error : string).

(** [for x in l]: thread the state through [f] on every item. *)
Fixpoint foldM {C A S} (f : S → A → M C S) (l : list A) (s : S) : M C S :=
  match l with
  | [] => ret s
  | x :: rest => do s' <- f s x; foldM f rest s'
  end.

(** One iteration of the loop over the results. *)
Definition tally_result {C} (analysis : Tally) (result : pyval) : M C Tally :=
  do has_url <- py_contains "url" result;
  do analysis <-
    (if has_url : bool then
       do url <- py_getitem_key result "url";
       match url with
       | PStr u =>
           ret (MkTally (total_results analysis) ({[domain_of u]} ∪ domains analysis)
                  (topics analysis) (summary analysis))
       | _ => raise (attribute_error url "split")
       end
     else ret analysis);
  do has_title <- py_contains "title" result;
  do analysis <-
    (if has_title : bool then
       do title <- py_getitem_key result "title";
       ret (MkTally (total_results analysis) (domains analysis)
              (topics analysis ++ [title]) (summary analysis))
     else ret analysis);
  do has_snippet <- py_contains "snippet" result;
  if has_snippet : bool then
    do snippet <- py_getitem_key result "snippet";
    ret (MkTally (total_results analysis) (domains analysis)
           (topics analysis) (summary analysis ++ [snippet]))
  else ret analysis.

(** [analyze_results] on a response of [search]: [results['results']] is
    what the client answered. *)
Definition analyze_results {C} (results : SearchResponse) : M C AnalysisResponse :=
  match results with
  | Failure _ => ret (AnalysisError "Invalid search results provided")
  | Success found _ =>
      try_except
        (do total <- py_len found;
         let analysis := MkTally total ∅ [] [] in
         do items <- py_iter found;
         do analysis <- foldM tally_result items analysis;
         ret (Analyzed (total_results analysis) (domains analysis)
                (topics analysis) (summary analysis)))
        (λ e, ret (AnalysisError ("Error analyzing results: " +:+ exc_str e)))
  end.

(** A result as the analysis expects it: a dict whose url, when it has one,
    is a string. *)
Definition result_dict (item : pyval) : Prop :=
  ∃ d, item = PDict d ∧ ∀ u, dict_lookup d "url" = Some u → ∃ s, u = PStr s.

Definition url_of (item : pyval) : option string :=
  match item with
  | PDict d => match dict_lookup d "url" with
               | Some (PStr u) => Some u
               | _ => None
               end
  | _ => None
  end.

Definition field (key : string) (item : pyval) : option pyval :=
  match item with
  | PDict d => dict_lookup d key
  | _ => None
  end.

(** The one item of a present value, nothing for an absent one. *)
Definition option_list {A} (o : option A) : list A :=
  match o with
  | Some a => [a]
  | None => []
  end.

(** No ['/'] in the string. *)
Fixpoint no_slash (s : string) : bool :=
  match s with
  | EmptyString => true
  | String c rest => negb (Ascii.eqb c "/") && no_slash rest
  end.

End Search.

(** ** modules/utils/helpers.py: loading the configuration *)

Module Config.
Import Thinking.

(** [s.endswith(suffix)] *)
Fixpoint ends_with (s suffix : string) : bool :=
  if String.eqb s suffix then true
  else match s with
       | EmptyString => false
       | String _ rest => ends_with rest suffix
       end.

Section Load.
(** The file system ([os.path.exists], opening and reading a file) and the
    two parsers; [yaml_load] stands for importing the yaml module and
    calling [safe_load]. *)
Context {FS : Type}.
Variable path_exists : string → FS → bool.
Variable open_read : string → FS → res string * FS.
Variable json_load : string → res pyval.
Variable yaml_load : string → res pyval.

Definition parse {A} (r : res A) : M FS A :=
  match r with
  | Ret a => ret a
  | Raise e => raise e
  end.

Definition load_config (config_path : string) : M FS pyval :=
  try_except
    (do found <- call_backend (λ fs, (Ret (path_exists config_path fs), fs));
     if negb found then ret (PDict [])
     else
       do content <- call_backend (open_read config_path);
       if ends_with config_path ".json" then parse (json_load content)
       else if ends_with config_path ".yaml" || ends_with config_path ".yml"
       then parse (yaml_load content)
       else raise (PyExc "ValueError" "Unsupported configuration file format"))
    (λ e, ret (PDict [])).

End Load.

End Config.

(** ** app.py: the transcriber's callback *)

Module App.
Import VectorDB Context.

(** The entries of [st.session_state] that [handle_speech_input] writes,
    and the inputs of the tasks it has handed to the event loop. *)
Record Session := MkSession {
  last_transcript : string;
  last_update : Z;
  conversation_history : option Summary;
  error_message : option string;
  scheduled : list string
}.

Section Handler.
Context {Chroma : Type}.
Variable collection_add :
  partition → string → gmap string string → string → Chroma → res unit * Chroma.
Variable strftime : Z → string.

Definition handle_speech_input (text : string) (manager : ContextManager)
    (session : Session) : M Chroma (ContextManager * Session) :=
  do now <- time_time;
  let session :=
    MkSession text now (conversation_history session) (error_message session)
      (scheduled session) in
  try_except
    (do stamp <- time_time;
     do r <- add_message collection_add strftime text "Human"
               (Some {["timestamp" := pretty stamp]}) manager;
     do summary <- get_conversation_summary (snd r);
     ret (snd r,
          MkSession (last_transcript session) (last_update session) (Some summary)
            (error_message session) (scheduled session ++ [text])))
    (λ e,
     ret (manager,
          MkSession (last_transcript session) (last_update session)
            (conversation_history session)
            (Some ("Error handling speech input: " +:+ exc_str e))
            (scheduled session))).

End Handler.

End App.

(** ** Sample collaborators, for the concrete runs below *)

Module Samples.
Import VectorDB Context.

(** A clock that advances by one microsecond at every read. *)
Definition ticking (k : nat) : Z := (1700000000000000 + Z.of_nat k)%Z.

Definition w0 : World unit := MkWorld ticking 0 ().

Definition strftime0 (t : Z) : string := pretty t.

(** A store that accepts every document. *)
Definition add_ok (p : partition) (doc : string) (meta : gmap string string)
  (eid : string) (c : unit) : res unit * unit := (Ret (), c).

(** A store with two empty partitions. *)
Definition query_empty (p : partition) (query : string) (n : Z) (c : unit)
  : res QueryResult * unit := (Ret (MkQueryResult [[]] [[]] [[]]), c).

(** A store whose backend is unavailable. *)
Definition unavailable : pyexc := PyExc "ConnectionError" "backend unavailable".
Definition query_unavailable (p : partition) (query : string) (n : Z) (c : unit)
  : res QueryResult * unit := (Raise unavailable, c).

(** A store whose conversation partition answers and whose reference
    partition is unavailable. *)
Definition query_references_unavailable (p : partition) (query : string) (n : Z)
    (c : unit) : res QueryResult * unit :=
  match p with
  | Conversations => (Ret (MkQueryResult [[]] [[]] [[]]), c)
  | References => (Raise unavailable, c)
  end.

Definition call (text : string) : Call := MkCall text "Human" None.

(** A device block of 1024 samples, delivered without incident. *)
Definition block : Listener.Frame := replicate 1024 0%Z.
Definition delivery : Listener.CallbackArgs :=
  Listener.MkCallbackArgs block false None false.

(** A cycle in which the queue yields one block and then stays empty, the
    flag stays set, the file is written and Whisper hears "hi". *)
Definition one_block_env : Listener.CycleEnv :=
  Listener.MkCycleEnv (λ _, true)
    (λ i, match i with 0 => Some block | _ => None end)
    true None (Ret "hi").

(** One full pass of the speaker's worker over an item whose synthesis and
    playback succeed: loop head, get, convert, play, sleep. *)
Definition pass_ok : list SpeakerQueue.Action :=
  replicate 5 (SpeakerQueue.Worker true true).

(** "a", "b", "c" enqueued, then played one after the other. *)
Definition abc_schedule : list SpeakerQueue.Action :=
  [SpeakerQueue.Speak "a"; SpeakerQueue.Speak "b"; SpeakerQueue.Speak "c"]
  ++ pass_ok ++ pass_ok ++ pass_ok.

(** "a" enqueued and taken off the queue, and its synthesis raises. *)
Definition failed_synthesis_schedule : list SpeakerQueue.Action :=
  [SpeakerQueue.Speak "a"; SpeakerQueue.Worker true true;
   SpeakerQueue.Worker true true; SpeakerQueue.Worker false true].

(** A [strip] for transcripts that carry no surrounding blanks. *)
Definition strip0 (text : string) : string := text.

(** A cycle in which the queue yields a block at every read. *)
Definition steady_env : Listener.CycleEnv :=
  Listener.MkCycleEnv (λ _, true) (λ _, Some block) true None (Ret "hi").

(** A cycle in which 25 blocks of 1280 samples arrive: 2 s at 16 kHz. *)
Definition two_seconds_env : Listener.CycleEnv :=
  Listener.MkCycleEnv (λ _, true)
    (λ i, if i <? 25 then Some (replicate 1280 0%Z) else None)
    true None (Ret "hi").

(** Language-model and search backends that are unreachable. *)
Definition unreachable : pyexc := PyExc "ConnectionError" "backend unreachable".
Definition crew_unreachable2 (context : Thinking.pyval) (discussion : string)
  (b : unit) : res Thinking.pyval * unit := (Raise unreachable, b).
Definition search_unreachable (query : Thinking.pyval) (b : unit)
  : res Thinking.pyval * unit := (Raise unreachable, b).
Definition crew_unreachable3 (context analysis search_results : Thinking.pyval)
  (b : unit) : res Thinking.pyval * unit := (Raise unreachable, b).

(** A search backend that answers with one result. *)
Definition search_one_hit (query : Thinking.pyval) (b : unit)
  : res Thinking.pyval * unit :=
  (Ret (Thinking.PList
          [Thinking.PDict [("title", Thinking.PStr "Rocq");
                           ("url", Thinking.PStr "https://rocq-prover.org")]]), b).

(** An analysis backend that answers with plain text, as a crew's [run()]
    does. *)
Definition crew_text (context : Thinking.pyval) (discussion : string) (b : unit)
  : res Thinking.pyval * unit := (Ret (Thinking.PStr "Key topics: none"), b).

Definition twelve_calls : list Call :=
  map call ["t1"; "t2"; "t3"; "t4"; "t5"; "t6"; "t7"; "t8"; "t9"; "t10"; "t11"; "t12"].

End Samples.

(** * Properties *)

(** ** The monad's equations *)

Lemma bind_ret_step {C A B} (m : M C A) (k : A → M C B) w a w' :
  m w = (Ret a, w') → bind m k w = k a w'.
Proof. intros H. unfold bind. by rewrite H. Qed.

Lemma bind_raise_step {C A B} (m : M C A) (k : A → M C B) w e w' :
  m w = (Raise e, w') → bind m k w = (Raise e, w').
Proof. intros H. unfold bind. by rewrite H. Qed.

Lemma bind_inv_ret {C A B} (m : M C A) (k : A → M C B) w b w2 :
  bind m k w = (Ret b, w2) →
  ∃ a w1, m w = (Ret a, w1) ∧ k a w1 = (Ret b, w2).
Proof.
  unfold bind. destruct (m w) as [[a|e] w1]; intros H; [eauto | discriminate].
Qed.

(** ** The recency window (context.py) *)

Section ContextFacts.
Import VectorDB Context.
Context {Chroma : Type}.
Variable collection_add :
  partition → string → gmap string string → string → Chroma → res unit * Chroma.
Variable collection_query :
  partition → string → Z → Chroma → res QueryResult * Chroma.
Variable strftime : Z → string.

Abbreviation add_message_turn := (add_message_turn collection_add strftime).
Abbreviation add_messages := (add_messages collection_add strftime).

(** What a returning [add_message] does to the manager. *)
Lemma add_message_turn_inv text speaker metadata self w turn self' w' :
  add_message_turn text speaker metadata self w = (Ret (turn, self'), w') →
  msg_text turn = text ∧ msg_speaker turn = speaker ∧
  max_recent_messages self' = max_recent_messages self ∧
  active_references (current_context self') = active_references (current_context self) ∧
  window self' =
    (if (max_recent_messages self <? Z.of_nat (length (window self ++ [turn])))%Z
     then drop 1 (window self ++ [turn]) else window self ++ [turn]).
Proof.
  unfold Context.add_message_turn. intros H.
  apply bind_inv_ret in H as (mid & w1 & _ & H).
  apply bind_inv_ret in H as (now & w2 & _ & H).
  unfold ret in H. injection H as <- <- <-. by cbn.
Qed.

(** [add_message] is that body, less the dict. *)
Lemma add_message_unfold text speaker metadata self (w : World Chroma) :
  Context.add_message collection_add strftime text speaker metadata self w
  = match add_message_turn text speaker metadata self w with
    | (Ret (turn, self'), w') => (Ret (msg_id turn, self'), w')
    | (Raise e, w') => (Raise e, w')
    end.
Proof.
  unfold Context.add_message, bind.
  by destruct (add_message_turn text speaker metadata self w) as [[[turn self']|e] w'].
Qed.

(** Appending to a window of at most ten turns and evicting keeps the last
    ten. *)
Lemma evict_last_ten (l : list Message) (turn : Message) :
  length l ≤ 10 →
  (if (10 <? Z.of_nat (length (l ++ [turn])))%Z
   then drop 1 (l ++ [turn]) else l ++ [turn])
  = drop (length (l ++ [turn]) - 10) (l ++ [turn]).
Proof.
  intros Hl. rewrite length_app. cbn [length].
  destruct (Z.ltb_spec 10 (Z.of_nat (length l + 1))) as [H|H].
  - replace (length l + 1 - 10) with 1 by lia. done.
  - replace (length l + 1 - 10) with 0 by lia. done.
Qed.

Lemma add_messages_window calls : ∀ self w self' w' added,
  max_recent_messages self = 10%Z →
  length (window self) ≤ 10 →
  add_messages calls self w = (self', w', added) →
  max_recent_messages self' = 10%Z ∧
  window self' = drop (length (window self ++ added) - 10) (window self ++ added).
Proof.
  induction calls as [|c calls IH]; intros self w self' w' added Hmax Hlen Hrun.
  - cbn in Hrun. injection Hrun as <- <- <-. split; [done|].
    rewrite app_nil_r. replace (length (window self) - 10) with 0 by lia. done.
  - cbn [Context.add_messages] in Hrun.
    destruct (add_message_turn _ _ _ self w) as [[[turn self1]|e] w1] eqn:Hturn.
    + destruct (add_messages calls self1 w1) as [[self2 w2] added1] eqn:Hrest.
      injection Hrun as <- <- <-.
      apply add_message_turn_inv in Hturn as (_ & _ & Hmax1 & _ & Hwin1).
      rewrite Hmax in Hmax1, Hwin1.
      rewrite evict_last_ten in Hwin1 by done.
      assert (length (window self1) ≤ 10) as Hlen1.
      { rewrite Hwin1, length_drop, length_app. cbn. lia. }
      destruct (IH _ _ _ _ _ Hmax1 Hlen1 Hrest) as [Hmax2 Hwin2].
      split; [done|]. rewrite Hwin2, Hwin1.
      rewrite <- drop_app_le by (rewrite length_app; cbn; lia).
      rewrite drop_drop, <- app_assoc. cbn [app].
      f_equal. rewrite !length_app, length_drop, !length_app. cbn [length]. lia.
    + eauto.
Qed.

(** The logged turns are those of the calls, in call order. *)
Lemma add_messages_added calls : ∀ self w self' w' added,
  add_messages calls self w = (self', w', added) →
  sublist (map (λ m, (msg_text m, msg_speaker m)) added)
          (map (λ c, (call_text c, call_speaker c)) calls).
Proof.
  induction calls as [|c calls IH]; intros self w self' w' added Hrun.
  - cbn in Hrun. injection Hrun as <- <- <-. constructor.
  - cbn [Context.add_messages] in Hrun.
    destruct (add_message_turn _ _ _ self w) as [[[turn self1]|e] w1] eqn:Hturn.
    + destruct (add_messages calls self1 w1) as [[self2 w2] added1] eqn:Hrest.
      injection Hrun as <- <- <-.
      apply add_message_turn_inv in Hturn as (Ht & Hs & _).
      cbn. rewrite Ht, Hs. apply sublist_skip. eauto.
    + cbn. apply sublist_cons. eauto.
Qed.

(** When the store accepts every document, every call adds its turn. *)
Lemma add_message_turn_returns text speaker metadata self w :
  add_never_raises collection_add →
  ∃ turn self' w', add_message_turn text speaker metadata self w = (Ret (turn, self'), w').
Proof.
  intros Hok.
  unfold Context.add_message_turn, add_conversation, time_strftime, bind, time_time,
    call_backend, ret. cbn.
  match goal with |- context [collection_add ?p ?d ?m ?i ?c] =>
    destruct (Hok p d m i c) as [c' ->] end.
  eauto.
Qed.

Lemma add_messages_all calls : ∀ self w self' w' added,
  add_never_raises collection_add →
  add_messages calls self w = (self', w', added) →
  map (λ m, (msg_text m, msg_speaker m)) added
  = map (λ c, (call_text c, call_speaker c)) calls.
Proof.
  induction calls as [|c calls IH]; intros self w self' w' added Hok Hrun.
  - cbn in Hrun. by injection Hrun as <- <- <-.
  - cbn [Context.add_messages] in Hrun.
    destruct (add_message_turn_returns (call_text c) (call_speaker c)
                (call_metadata c) self w Hok) as (turn & self1 & w1 & Hturn).
    rewrite Hturn in Hrun.
    destruct (add_messages calls self1 w1) as [[self2 w2] added1] eqn:Hrest.
    injection Hrun as <- <- <-.
    apply add_message_turn_inv in Hturn as (Ht & Hs & _).
    cbn. rewrite Ht, Hs. f_equal. eauto.
Qed.

(** The window after a run on a fresh manager. *)
Lemma add_messages_fresh calls (w : World Chroma) self' w' added :
  add_messages calls init w = (self', w', added) →
  window self' = drop (length added - 10) added ∧
  length (window self') = min (length added) 10.
Proof.
  intros Hrun.
  destruct (add_messages_window calls init w self' w' added) as [_ Hwin];
    [done | cbn; lia | done |].
  cbn in Hwin. split; [done|]. rewrite Hwin, length_drop. lia.
Qed.

(** C2. After any sequence of [add_message] calls on a fresh manager the
    recency window holds at most ten turns, and it holds exactly the
    min(k, 10) most recently added turns, in insertion order (the oldest were
    evicted first), where k counts the turns added, i.e. the calls that
    returned; the added turns are those of the calls, in call order, and
    when the store accepts every document they are all of them, so that k is
    the number of calls. *)
Theorem recency_window_fifo (calls : list Call) (w : World Chroma) :
  let r := add_messages calls init w in
  let added := r.2 in
  let self' := r.1.1 in
  length (window self') ≤ 10 ∧
  length (window self') = min (length added) 10 ∧
  window self' = drop (length added - 10) added ∧
  sublist (map (λ m, (msg_text m, msg_speaker m)) added)
          (map (λ c, (call_text c, call_speaker c)) calls) ∧
  (add_never_raises collection_add →
   length added = length calls ∧
   map (λ m, (msg_text m, msg_speaker m)) added
   = map (λ c, (call_text c, call_speaker c)) calls).
Proof.
  destruct (add_messages calls init w) as [[self' w'] added] eqn:Hrun. cbn.
  destruct (add_messages_fresh calls w self' w' added Hrun) as [Hwin Hlen].
  split; [lia|]. split; [done|]. split; [done|].
  split; [by eapply add_messages_added|].
  intros Hok.
  pose proof (add_messages_all calls init w self' w' added Hok Hrun) as Hall.
  split; [|done].
  rewrite <- (length_map (λ m, (msg_text m, msg_speaker m))), Hall.
  by rewrite length_map.
Qed.

(** [get_conversation_summary] always returns; its counts are the lengths of
    the window and of the active references. *)
Lemma get_conversation_summary_counts (self : ContextManager) (w : World Chroma) :
  ∃ s w', get_conversation_summary self w = (Ret s, w') ∧
          message_count s = length (window self) ∧
          reference_count s = length (active_references (current_context self)).
Proof.
  unfold get_conversation_summary, window, bind, time_time, ret. cbn.
  destruct (recent_messages (current_context self)); cbn; eauto.
Qed.

(** C9. After k turns added to a fresh manager, the summary's
    [message_count] is min(k, 10): it is the length of the recency window,
    not the number of turns persisted, and stops growing at ten.  k counts
    the calls that returned; when the store accepts every document it is the
    number of calls. *)
Theorem summary_message_count_capped (calls : list Call) (w : World Chroma) :
  let r := add_messages calls init w in
  ∃ s w', get_conversation_summary r.1.1 r.1.2 = (Ret s, w') ∧
          message_count s = length (window r.1.1) ∧
          message_count s = min (length r.2) 10 ∧
          message_count s ≤ 10 ∧
          (add_never_raises collection_add →
           message_count s = min (length calls) 10).
Proof.
  destruct (add_messages calls init w) as [[self' w'] added] eqn:Hrun. cbn.
  destruct (get_conversation_summary_counts self' w') as (s & w2 & Hs & Hm & _).
  destruct (add_messages_fresh calls w self' w' added Hrun) as [_ Hlen].
  exists s, w2. split; [done|]. split; [done|]. split; [lia|]. split; [lia|].
  intros Hok.
  pose proof (add_messages_all calls init w self' w' added Hok Hrun) as Hall.
  apply (f_equal length) in Hall. rewrite !length_map in Hall. lia.
Qed.

(** On an empty window the ['duration'] entry is the difference of two
    successive clock reads. *)
Lemma get_conversation_summary_empty (self : ContextManager) (w : World Chroma) :
  window self = [] →
  get_conversation_summary self w =
    (Ret (MkSummary (elements (participants (current_context self)))
            (current_topic (current_context self)) 0
            (length (active_references (current_context self)))
            (clock w (reads w) - clock w (S (reads w)))%Z),
     MkWorld (clock w) (S (S (reads w))) (backend w)).
Proof.
  unfold get_conversation_summary, window, bind, time_time, ret. cbn.
  by intros ->.
Qed.

(** C8. After [clear_context], every read ([get_conversation_summary],
    [get_active_references], [get_relevant_context]) yields, in any world,
    what it yields on a freshly constructed manager over the same store. *)
Theorem clear_context_reads_as_fresh (self : ContextManager) (w : World Chroma)
    (query : string) (max_results : Z) :
  current_context (clear_context self) = current_context init ∧
  get_conversation_summary (clear_context self) w = get_conversation_summary init w ∧
  get_active_references (clear_context self) = get_active_references init ∧
  get_relevant_context collection_query query max_results (clear_context self) w
  = get_relevant_context collection_query query max_results init w.
Proof.
  assert (current_context (clear_context self) = current_context init) as Hctx
    by reflexivity.
  split; [done|]. split; [|split].
  - unfold get_conversation_summary. by rewrite Hctx.
  - unfold get_active_references. by rewrite Hctx.
  - unfold get_relevant_context. by rewrite Hctx.
Qed.

(** A search whose backend call raises, raises. *)
Lemma search_query_raises p query n (w : World Chroma) e c' :
  collection_query p query n (backend w) = (Raise e, c') →
  search collection_query p query n w = (Raise e, MkWorld (clock w) (reads w) c').
Proof.
  intros H. unfold search. apply bind_raise_step.
  unfold call_backend. by rewrite H.
Qed.

(** A search over an empty partition yields no hit. *)
Lemma search_empty p query n (w : World Chroma) r c' :
  collection_query p query n (backend w) = (Ret r, c') →
  documents r !! 0 = Some [] →
  search collection_query p query n w = (Ret [], MkWorld (clock w) (reads w) c').
Proof.
  intros H Hdocs. unfold search.
  erewrite bind_ret_step; [|unfold call_backend; by rewrite H].
  unfold getitem. rewrite Hdocs. reflexivity.
Qed.

(** C1, as the code has it.  [get_relevant_context] does not contain a
    failing search: when the backend call of the conversation search or of
    the reference search raises, it raises the same exception.  Whenever it
    returns, the snapshot carries the recency window, the participants and
    the topic; and a backend that answers both searches with an empty hit
    list (empty partitions) makes both contribute the empty sequence. *)
Theorem get_relevant_context_propagates_search_failure
    (query : string) (max_results : Z) (self : ContextManager) (w : World Chroma) :
  (∀ e c',
     collection_query Conversations query max_results (backend w) = (Raise e, c') →
     get_relevant_context collection_query query max_results self w
     = (Raise e, MkWorld (clock w) (reads w) c')) ∧
  (∀ convs w1 e c',
     search_conversations collection_query query max_results w = (Ret convs, w1) →
     collection_query References query max_results (backend w1) = (Raise e, c') →
     get_relevant_context collection_query query max_results self w
     = (Raise e, MkWorld (clock w1) (reads w1) c')) ∧
  (∀ s w',
     get_relevant_context collection_query query max_results self w = (Ret s, w') →
     recent_context s = window self ∧
     snap_participants s = elements (participants (current_context self)) ∧
     snap_current_topic s = current_topic (current_context self)) ∧
  (∀ r1 c1 r2 c2,
     collection_query Conversations query max_results (backend w) = (Ret r1, c1) →
     documents r1 !! 0 = Some [] →
     collection_query References query max_results c1 = (Ret r2, c2) →
     documents r2 !! 0 = Some [] →
     get_relevant_context collection_query query max_results self w
     = (Ret (MkSnapshot (window self) [] []
               (elements (participants (current_context self)))
               (current_topic (current_context self))),
        MkWorld (clock w) (reads w) c2)).
Proof.
  split; [|split; [|split]].
  - intros e c' H. unfold get_relevant_context.
    apply bind_raise_step. by apply search_query_raises.
  - intros convs w1 e c' Hc Hr. unfold get_relevant_context.
    erewrite bind_ret_step by exact Hc.
    apply bind_raise_step. by apply search_query_raises.
  - intros s w' H. unfold get_relevant_context in H.
    apply bind_inv_ret in H as (convs & w1 & _ & H).
    apply bind_inv_ret in H as (refs & w2 & _ & H).
    unfold ret in H. by injection H as <- <-.
  - intros r1 c1 r2 c2 H1 Hd1 H2 Hd2. unfold get_relevant_context.
    erewrite bind_ret_step by (by eapply search_empty).
    erewrite bind_ret_step by (by eapply search_empty).
    reflexivity.
Qed.

End ContextFacts.

(** *** Concrete runs of the memory modules *)

Section ContextRuns.
Import VectorDB Context Samples.

Lemma add_ok_never_raises : add_never_raises add_ok.
Proof. intros p doc meta eid c. by exists c. Qed.

(** Twelve turns on a fresh manager: the first two have been evicted. *)
Example window_after_twelve_calls :
  map msg_text (window (add_messages add_ok strftime0 twelve_calls init w0).1.1)
  = ["t3"; "t4"; "t5"; "t6"; "t7"; "t8"; "t9"; "t10"; "t11"; "t12"].
Proof. vm_compute. reflexivity. Qed.

(** Twelve calls on a store that accepts every document: twelve turns added. *)
Lemma recency_window_fifo_witness :
  length (add_messages add_ok strftime0 twelve_calls init w0).2 = length twelve_calls.
Proof.
  exact (proj1 (proj2 (proj2 (proj2 (proj2
           (recency_window_fifo add_ok strftime0 twelve_calls w0))))
           add_ok_never_raises)).
Defined.

(** After those twelve calls the summary counts ten messages. *)
Lemma summary_message_count_capped_witness :
  ∃ s w',
    get_conversation_summary
      (add_messages add_ok strftime0 twelve_calls init w0).1.1
      (add_messages add_ok strftime0 twelve_calls init w0).1.2 = (Ret s, w') ∧
    message_count s = min (length twelve_calls) 10.
Proof.
  destruct (summary_message_count_capped add_ok strftime0 twelve_calls w0)
    as (s & w' & Hs & _ & _ & _ & Hall).
  exists s, w'. split; [exact Hs | exact (Hall add_ok_never_raises)].
Defined.

(** C7, on the code.  On a freshly constructed manager, with a clock that
    advances between two reads, the summary has [message_count = 0] and
    [reference_count = 0] but its [duration] is the (negative) difference of
    the two clock reads of the ['duration'] expression, not 0. *)
Theorem summary_of_fresh_context_two_clock_reads :
  (get_conversation_summary init w0).1 = Ret (MkSummary [] None 0 0 (-1)).
Proof. vm_compute. reflexivity. Qed.

(** C1 fails as stated: with the backend unavailable the search raises and
    [get_relevant_context] raises with it. *)
Lemma get_relevant_context_raises_when_backend_unavailable :
  (get_relevant_context query_unavailable "hello" 5 init w0).1 = Raise unavailable ∧
  ¬ returns (get_relevant_context query_unavailable "hello" 5 init w0).1.
Proof.
  assert ((get_relevant_context query_unavailable "hello" 5 init w0).1
          = Raise unavailable) as H by reflexivity.
  split; [exact H|]. rewrite H. intros [s Hs]. discriminate.
Qed.

(** The three cases on sample stores: conversation search down, reference
    search down, both partitions empty. *)
Lemma get_relevant_context_propagates_search_failure_witness :
  (get_relevant_context query_unavailable "hello" 5 init w0).1 = Raise unavailable ∧
  (get_relevant_context query_references_unavailable "hello" 5 init w0).1
  = Raise unavailable ∧
  (get_relevant_context query_empty "hello" 5 init w0).1
  = Ret (MkSnapshot [] [] [] [] None) ∧
  recent_context (MkSnapshot [] [] [] [] None) = window init.
Proof.
  split; [|split; [|split]]; cycle 3.
  - apply (proj1 (proj2 (proj2 (get_relevant_context_propagates_search_failure
                                  query_empty "hello" 5 init w0)))
             (MkSnapshot [] [] [] [] None) w0).
    reflexivity.
  - rewrite (proj1 (get_relevant_context_propagates_search_failure
                      query_unavailable "hello" 5 init w0) unavailable ());
      reflexivity.
  - rewrite (proj1 (proj2 (get_relevant_context_propagates_search_failure
                             query_references_unavailable "hello" 5 init w0))
               [] w0 unavailable ()); reflexivity.
  - rewrite (proj2 (proj2 (proj2 (get_relevant_context_propagates_search_failure
                                    query_empty "hello" 5 init w0)))
               (MkQueryResult [[]] [[]] [[]]) () (MkQueryResult [[]] [[]] [[]]) ());
      reflexivity.
Defined.

End ContextRuns.

(** ** The thought cycle (thinking.py) *)

Section ThinkingFacts.
Import Thinking.
Context {B : Type}.
Variable analysis_crew_run : pyval → string → B → res pyval * B.
Variable tavily_search : pyval → B → res pyval * B.
Variable response_crew_run : pyval → pyval → pyval → B → res pyval * B.

Abbreviation process_thought_body :=
  (process_thought_body analysis_crew_run tavily_search response_crew_run).
Abbreviation process_thought :=
  (process_thought analysis_crew_run tavily_search response_crew_run).

Lemma error_description_nonempty text : error_description text → text ≠ "".
Proof. intros [e [-> | ->]]; discriminate. Qed.

(** [_search_internet] contains its failures: it always returns a dict. *)
Lemma search_internet_returns query (w : World B) :
  ∃ d w', _search_internet tavily_search query w = (Ret (PDict d), w').
Proof.
  unfold _search_internet, try_except, bind, call_backend, ret.
  destruct (tavily_search query (backend w)) as [[r|e] b']; cbn; eauto.
Qed.

(** With the search backend down, the dict has no ['status'] of success. *)
Lemma search_internet_error query (w : World B) :
  raises (tavily_search query) →
  ∃ e w', _search_internet tavily_search query w
          = (Ret (PDict [("error", PStr (exc_str e)); ("status", PStr "error")]), w').
Proof.
  intros Hs. destruct (Hs (backend w)) as (e & b' & He).
  unfold _search_internet, try_except, bind, call_backend, ret.
  rewrite He. cbn. eauto.
Qed.

Lemma generate_response_returns context analysis search_results (w : World B) :
  ∃ r w', _generate_response response_crew_run context analysis search_results w
          = (Ret r, w').
Proof.
  unfold _generate_response, try_except, call_backend, ret.
  destruct (response_crew_run _ _ _ (backend w)) as [[r|e] b']; cbn; eauto.
Qed.

Lemma generate_response_error context analysis search_results (w : World B) r w' :
  raises (response_crew_run context analysis search_results) →
  _generate_response response_crew_run context analysis search_results w = (Ret r, w') →
  ∃ e, r = PStr ("Error generating response: " +:+ exc_str e).
Proof.
  intros Hg. destruct (Hg (backend w)) as (e & b' & He).
  unfold _generate_response, try_except, call_backend, ret.
  rewrite He. cbn. intros H. injection H as <- <-. eauto.
Qed.

(** When the search backend is down no reference is extracted. *)
Lemma references_empty_without_search context discussion query (w : World B)
    response refs w' :
  (∀ q, raises (tavily_search q)) →
  process_thought_body context discussion query w = (Ret (response, refs), w') →
  refs = [].
Proof.
  intros Hse Hbody. unfold Thinking.process_thought_body in Hbody.
  apply bind_inv_ret in Hbody as (analysis & w1 & _ & Hbody).
  apply bind_inv_ret in Hbody as (needed & w2 & _ & Hbody).
  apply bind_inv_ret in Hbody as (sr & w3 & Hsr & Hbody).
  apply bind_inv_ret in Hbody as (resp & w4 & _ & Hbody).
  apply bind_inv_ret in Hbody as (references & w5 & Hrefs & Hbody).
  unfold ret in Hbody. injection Hbody as _ <- _.
  destruct needed.
  - apply bind_inv_ret in Hsr as (sq & w2' & _ & Hsi).
    destruct (search_internet_error sq w2' (Hse sq)) as (e & w3' & He).
    rewrite He in Hsi. injection Hsi as <- _.
    cbn in Hrefs. unfold ret in Hrefs. by injection Hrefs as <- _.
  - unfold ret in Hsr. injection Hsr as <- _.
    cbn in Hrefs. unfold ret in Hrefs. by injection Hrefs as <- _.
Qed.

(** With the analysis backend down, the analysis is an error dict. *)
Lemma analyze_context_error context discussion (w : World B) :
  raises (analysis_crew_run context discussion) →
  ∃ e w', _analyze_context analysis_crew_run context discussion w
          = (Ret (PDict [("error", PStr (exc_str e)); ("status", PStr "error")]), w').
Proof.
  intros Ha. destruct (Ha (backend w)) as (e & b' & He).
  unfold _analyze_context, try_except, bind, call_backend, ret.
  rewrite He. cbn. eauto.
Qed.

(** With the analysis backend down and no explicit query, no search is made
    and no reference is extracted. *)
Lemma references_empty_without_query context discussion query (w : World B)
    response refs w' :
  (∀ c d, raises (analysis_crew_run c d)) →
  truthy (query_value query) = false →
  process_thought_body context discussion query w = (Ret (response, refs), w') →
  refs = [].
Proof.
  intros Han Hq Hbody. unfold Thinking.process_thought_body in Hbody.
  rewrite Hq in Hbody.
  apply bind_inv_ret in Hbody as (analysis & w1 & Ha & Hbody).
  destruct (analyze_context_error context discussion w (Han _ _)) as (e & w1' & He).
  rewrite He in Ha. injection Ha as <- _.
  apply bind_inv_ret in Hbody as (needed & w2 & Hneed & Hbody).
  cbn in Hneed. unfold ret in Hneed. injection Hneed as <- _.
  apply bind_inv_ret in Hbody as (sr & w3 & Hsr & Hbody).
  unfold ret in Hsr. injection Hsr as <- _.
  apply bind_inv_ret in Hbody as (resp & w4 & _ & Hbody).
  apply bind_inv_ret in Hbody as (references & w5 & Hrefs & Hbody).
  unfold ret in Hbody. injection Hbody as _ <- _.
  cbn in Hrefs. unfold ret in Hrefs. by injection Hrefs as <- _.
Qed.

(** With the generation backend down the reply is the generation error
    text. *)
Lemma response_is_error_without_generation context discussion query (w : World B)
    response refs w' :
  (∀ c a s, raises (response_crew_run c a s)) →
  process_thought_body context discussion query w = (Ret (response, refs), w') →
  ∃ e, response = PStr ("Error generating response: " +:+ exc_str e).
Proof.
  intros Hge Hbody. unfold Thinking.process_thought_body in Hbody.
  apply bind_inv_ret in Hbody as (analysis & w1 & _ & Hbody).
  apply bind_inv_ret in Hbody as (needed & w2 & _ & Hbody).
  apply bind_inv_ret in Hbody as (sr & w3 & _ & Hbody).
  apply bind_inv_ret in Hbody as (resp & w4 & Hresp & Hbody).
  apply bind_inv_ret in Hbody as (references & w5 & _ & Hbody).
  unfold ret in Hbody. injection Hbody as <- _ _.
  eapply generate_response_error; [apply Hge | exact Hresp].
Qed.

(** C3. [process_thought] returns a value in every world, whatever the
    three backends do: it never raises.  When its [try] block fails (total
    failure) the value is the pair of the non-empty text "Error in thought
    process: ..." and the empty reference list.  When the generation backend
    is down the response text is a non-empty error description, and the
    reference list is empty as soon as no search succeeded: the search
    backend is down as well, or the analysis backend is down and no explicit
    query is given. *)
Theorem process_thought_never_raises (context : pyval) (discussion : string)
    (query : option string) (w : World B) :
  (∃ response refs w',
     process_thought context discussion query w = (Ret (response, refs), w')) ∧
  (∀ e w',
     process_thought_body context discussion query w = (Raise e, w') →
     process_thought context discussion query w
     = (Ret (PStr ("Error in thought process: " +:+ exc_str e), []), w') ∧
     "Error in thought process: " +:+ exc_str e ≠ "") ∧
  ((∀ c a s, raises (response_crew_run c a s)) →
   ∃ text refs w',
     process_thought context discussion query w = (Ret (PStr text, refs), w') ∧
     error_description text ∧ text ≠ "" ∧
     ((∀ q, raises (tavily_search q)) → refs = []) ∧
     ((∀ c d, raises (analysis_crew_run c d)) →
      truthy (query_value query) = false → refs = [])).
Proof.
  unfold Thinking.process_thought, try_except.
  destruct (process_thought_body context discussion query w)
    as [[[response refs]|e] w'] eqn:Hbody.
  - split; [by eauto|]. split; [by intros|].
    intros Hge.
    destruct (response_is_error_without_generation _ _ _ _ _ _ _ Hge Hbody)
      as [e ->].
    eexists _, refs, w'. split; [done|].
    assert (error_description ("Error generating response: " +:+ exc_str e)) as Hd
      by (exists e; by left).
    split; [done|]. split; [by apply error_description_nonempty|].
    split.
    + intros Hse. by eapply references_empty_without_search.
    + intros Han Hq. by eapply references_empty_without_query.
  - split; [by eauto|]. split.
    + intros e' w'' H. injection H as <- <-. done.
    + intros _. eexists _, [], w'. split; [done|].
      assert (error_description ("Error in thought process: " +:+ exc_str e)) as Hd
        by (exists e; by right).
      split; [done|]. split; [by apply error_description_nonempty|]. done.
Qed.

End ThinkingFacts.

(** *** Concrete runs of the thought cycle *)

Section ThinkingRuns.
Import Thinking Samples.

(** Every backend unreachable, an explicit query given: the reply is the
    generation error text, with no reference. *)
Example process_thought_all_backends_down :
  (process_thought crew_unreachable2 search_unreachable crew_unreachable3
     (PDict []) "hello" (Some "what is Rocq?") w0).1
  = Ret (PStr "Error generating response: backend unreachable", []).
Proof. reflexivity. Qed.

(** The analysis answers with plain text and no query is given: looking for
    the clarification hints in it fails, and the outer handler answers. *)
Example process_thought_outer_handler :
  (process_thought crew_text search_unreachable crew_unreachable3
     (PDict []) "hello" None w0).1
  = Ret (PStr "Error in thought process: 'str' object has no attribute 'get'", []).
Proof. reflexivity. Qed.

(** A partial failure: the language model is unreachable but the search
    answers; the reply is the generation error text and the references of
    the search are kept. *)
Example process_thought_search_only :
  (process_thought crew_unreachable2 search_one_hit crew_unreachable3
     (PDict []) "hello" (Some "what is Rocq?") w0).1
  = Ret (PStr "Error generating response: backend unreachable",
         [PDict [("title", PStr "Rocq"); ("url", PStr "https://rocq-prover.org");
                 ("snippet", PStr "")]]).
Proof. reflexivity. Qed.

(** The two failures above, obtained from the general statement. *)
Lemma process_thought_never_raises_witness :
  (∃ text refs w',
     process_thought crew_unreachable2 search_unreachable crew_unreachable3
       (PDict []) "hello" (Some "what is Rocq?") w0 = (Ret (PStr text, refs), w') ∧
     text ≠ "" ∧ refs = []) ∧
  process_thought crew_text search_unreachable crew_unreachable3
    (PDict []) "hello" None w0
  = (Ret (PStr ("Error in thought process: " +:+
                "'str' object has no attribute 'get'"), []), w0).
Proof.
  split.
  - destruct (proj2 (proj2 (process_thought_never_raises
                 crew_unreachable2 search_unreachable crew_unreachable3
                 (PDict []) "hello" (Some "what is Rocq?") w0)))
      as (text & refs & w' & Hrun & _ & Hne & Hrefs & _).
    { intros c a s b. exists unreachable, b. reflexivity. }
    exists text, refs, w'. split; [exact Hrun|]. split; [exact Hne|].
    apply Hrefs. intros q b. exists unreachable, b. reflexivity.
  - apply (proj1 (proj2 (process_thought_never_raises
                 crew_text search_unreachable crew_unreachable3
                 (PDict []) "hello" None w0))
             (PyExc "AttributeError" "'str' object has no attribute 'get'") w0).
    reflexivity.
Defined.

End ThinkingRuns.

(** ** The audio callback and the collection cycle (listener.py) *)

Section ListenerFacts.
Import Listener.

Lemma audio_callback_flag a self :
  is_listening (audio_callback a self) = is_listening self.
Proof.
  unfold audio_callback.
  destruct (input_overflow a), (is_listening self) eqn:Hl; cbn; rewrite ?Hl; try done;
    destruct (copy_raises a), (draw_below_tenth a), (indata a); done.
Qed.

(** One invocation: the queue gains the block when the flag is set and the
    copy succeeded, and is untouched otherwise. *)
Lemma audio_callback_queue a self :
  audio_queue (audio_callback a self)
  = audio_queue self ++ (if is_listening self then copied [a] else []).
Proof.
  unfold audio_callback, copied.
  destruct (input_overflow a), (is_listening self) eqn:Hl; cbn; rewrite ?Hl;
    rewrite ?app_nil_r; try done;
    destruct (copy_raises a), (draw_below_tenth a), (indata a); cbn;
    rewrite ?app_nil_r; done.
Qed.

Lemma count_line_snoc line lines l :
  count_line line (lines ++ [l])
  = count_line line lines + (if decide (l = line) then 1 else 0).
Proof.
  unfold count_line. rewrite filter_app, length_app, filter_cons.
  by destruct (decide (l = line)).
Qed.

Lemma overflows_one a : overflows [a] = if input_overflow a then 1 else 0.
Proof.
  unfold overflows. rewrite filter_cons.
  destruct (input_overflow a); by case_decide.
Qed.

Lemma audio_callback_overflow_line a self :
  count_line "Audio input overflow" (printed (audio_callback a self))
  = count_line "Audio input overflow" (printed self) + overflows [a].
Proof.
  rewrite overflows_one. unfold audio_callback.
  destruct (input_overflow a), (is_listening self) eqn:Hl; cbn [print printed is_listening];
    rewrite ?Hl;
    try (destruct (copy_raises a), (draw_below_tenth a), (indata a));
    cbn [print put printed]; rewrite ?count_line_snoc;
    repeat case_decide; try discriminate; try congruence; lia.
Qed.

Lemma copied_app calls1 calls2 : copied (calls1 ++ calls2) = copied calls1 ++ copied calls2.
Proof. apply omap_app. Qed.

Lemma overflows_app calls1 calls2 :
  overflows (calls1 ++ calls2) = overflows calls1 + overflows calls2.
Proof. unfold overflows. by rewrite filter_app, length_app. Qed.

Lemma audio_callbacks_run calls : ∀ self,
  is_listening (audio_callbacks calls self) = is_listening self ∧
  audio_queue (audio_callbacks calls self)
  = audio_queue self ++ (if is_listening self then copied calls else []) ∧
  count_line "Audio input overflow" (printed (audio_callbacks calls self))
  = count_line "Audio input overflow" (printed self) + overflows calls.
Proof.
  induction calls as [|a calls IH]; intros self.
  - cbn. rewrite Nat.add_0_r. by destruct (is_listening self); rewrite app_nil_r.
  - change (audio_callbacks (a :: calls) self)
      with (audio_callbacks calls (audio_callback a self)).
    destruct (IH (audio_callback a self)) as (Hf & Hq & Hp).
    rewrite Hf, Hq, Hp, audio_callback_flag, audio_callback_queue,
      audio_callback_overflow_line.
    change (a :: calls) with ([a] ++ calls). rewrite copied_app, overflows_app.
    split; [done|]. split; [|lia].
    destruct (is_listening self); by rewrite <- ?app_assoc.
Qed.

Lemma copied_all_succeed calls :
  Forall (λ a, copy_raises a = None) calls → copied calls = map indata calls.
Proof.
  induction 1 as [|a calls Ha _ IH]; [done|].
  cbn. rewrite Ha. cbn. f_equal. exact IH.
Qed.

(** C6, as the code has it.  The queue has no bound and nothing is dropped:
    while the flag is set each invocation whose copy succeeds appends its
    block, so that invocations that all succeed make the queue longer by
    their number; with the flag clear the queue is untouched.  Each
    invocation with an input-overflow status prints one line. *)
Theorem audio_queue_grows_without_bound (calls : list CallbackArgs)
    (self : AudioListener) :
  audio_queue (audio_callbacks calls self)
  = audio_queue self ++ (if is_listening self then copied calls else []) ∧
  count_line "Audio input overflow" (printed (audio_callbacks calls self))
  = count_line "Audio input overflow" (printed self) + overflows calls ∧
  (is_listening self = true →
   Forall (λ a, copy_raises a = None) calls →
   audio_queue (audio_callbacks calls self) = audio_queue self ++ map indata calls ∧
   length (audio_queue (audio_callbacks calls self))
   = length (audio_queue self) + length calls).
Proof.
  destruct (audio_callbacks_run calls self) as (_ & Hq & Hp).
  split; [done|]. split; [done|].
  intros Hl Hc. rewrite Hq, Hl, (copied_all_succeed calls Hc).
  split; [done|]. by rewrite length_app, length_map.
Qed.

(** The collecting loop appends at most one non-empty block per
    iteration. *)
Lemma collect_appends env n : ∀ i audio_data,
  ∃ more, collect env n i audio_data = audio_data ++ more ∧
          length more ≤ n ∧ Forall (λ f, f ≠ []) more.
Proof.
  induction n as [|n IH]; intros i audio_data; cbn [collect].
  - exists []. by rewrite app_nil_r.
  - destruct (flag_at env i); cbn [negb].
    + destruct (get_at env i) as [chunk|].
      * destruct (Z.ltb_spec 0 (Z.of_nat (length chunk))) as [Hpos|Hpos].
        -- destruct (IH (S i) (audio_data ++ [chunk])) as (more & -> & Hlen & Hall).
           exists (chunk :: more). rewrite <- app_assoc. split; [done|].
           split; [cbn; lia|]. constructor; [|done].
           intros ->. cbn in Hpos. lia.
        -- destruct (IH (S i) audio_data) as (more & -> & Hlen & Hall).
           exists more. split; [done|]. split; [lia|done].
      * destruct (IH (S i) audio_data) as (more & -> & Hlen & Hall).
        exists more. split; [done|]. split; [lia|done].
    + exists []. rewrite app_nil_r. split; [done|]. split; [cbn; lia|done].
Qed.

Lemma total_samples_nonneg frames : (0 ≤ total_samples frames)%Z.
Proof. unfold total_samples. lia. Qed.

Lemma total_samples_pos frames :
  Forall (λ f : Frame, f ≠ []) frames → frames ≠ [] → (0 < total_samples frames)%Z.
Proof.
  unfold total_samples. intros Hall Hne.
  destruct frames as [|f frames]; [done|].
  apply Forall_cons in Hall as [Hf _].
  destruct f; [done|]. cbn. lia.
Qed.

Section CycleFacts.
Variable strip : string → string.

Lemma cycle_collected sr env :
  collected (cycle strip sr env) = collect env (iterations sr) 0 [].
Proof.
  unfold cycle. destruct (collect env (iterations sr) 0 []); [done|].
  destruct (flag_after env), (write_raises env), (transcribe_result env); try done;
    by destruct (negb _).
Qed.

(** C4, as the code has it.  A collection cycle reads the queue at most
    [int(sample_rate * 2 / 1024)] times and keeps the non-empty blocks; it
    never compares their total duration with the two seconds.  It calls the
    transcriber at most once: not at all when no sample was collected or
    the flag is clear after collecting, and exactly once, on the
    concatenated blocks, when at least one sample was collected, the flag is
    still set and the temporary file was written. *)
Theorem cycle_transcribes_whatever_was_collected (sr : Z) (env : CycleEnv) :
  let r := cycle strip sr env in
  length (collected r) ≤ iterations sr ∧
  Forall (λ f, f ≠ []) (collected r) ∧
  length (transcribe_calls r) ≤ 1 ∧
  (total_samples (collected r) = 0%Z → transcribe_calls r = []) ∧
  (flag_after env = false → transcribe_calls r = []) ∧
  ((0 < total_samples (collected r))%Z →
   flag_after env = true → write_raises env = None →
   transcribe_calls r = [concat (collected r)]).
Proof.
  cbn zeta. rewrite cycle_collected.
  destruct (collect_appends env (iterations sr) 0 []) as (more & Hc & Hlen & Hall).
  cbn [app] in Hc. unfold cycle. rewrite Hc.
  split; [done|]. split; [done|].
  destruct more as [|f more].
  - cbn. split; [lia|]. split; [done|]. split; [done|].
    unfold total_samples. cbn. lia.
  - assert (0 < total_samples (f :: more))%Z as Hpos
      by (by apply total_samples_pos).
    destruct (flag_after env), (write_raises env), (transcribe_result env);
      try destruct (negb _); cbn [transcribe_calls collected length];
      (split; [lia|]); (split; [intros; lia|]);
      (split; [intros; congruence|]); intros; congruence.
Qed.

End CycleFacts.

End ListenerFacts.

(** *** Concrete runs of the listener *)

Section ListenerRuns.
Import Listener Samples.

(** C6 fails as stated: whatever the bound, that many invocations plus one,
    with nobody reading the queue, leave it longer than the bound. *)
Lemma audio_queue_exceeds_every_bound :
  ¬ ∃ bound : nat, ∀ calls : list CallbackArgs,
      length (audio_queue (audio_callbacks calls (start (init 16000)))) ≤ bound.
Proof.
  intros [bound H]. specialize (H (replicate (S bound) delivery)).
  destruct (audio_callbacks_run (replicate (S bound) delivery) (start (init 16000)))
    as (_ & Hq & _).
  rewrite Hq in H. cbn [start is_listening audio_queue init app] in H.
  rewrite copied_all_succeed in H by (by apply Forall_replicate).
  rewrite length_map, length_replicate in H. lia.
Qed.

(** Three deliveries while listening: three blocks queued. *)
Lemma audio_queue_grows_without_bound_witness :
  length (audio_queue (audio_callbacks [delivery; delivery; delivery]
                         (start (init 16000)))) = 3.
Proof.
  refine (proj2 (proj2 (proj2 (audio_queue_grows_without_bound
            [delivery; delivery; delivery] (start (init 16000))))
            eq_refl _)).
  repeat constructor.
Defined.

(** C4 fails as stated: one block of 1024 samples (64 ms at 16 kHz), well
    short of two seconds, and the cycle still calls the transcriber. *)
Lemma one_block_cycle_transcribes :
  (total_samples (collected (cycle strip0 16000 one_block_env)) < 2 * 16000)%Z ∧
  length (transcribe_calls (cycle strip0 16000 one_block_env)) = 1.
Proof. vm_compute. split; reflexivity. Qed.

(** With a block at every read the cycle stops after 31 reads, at 31744
    samples, and transcribes them. *)
Example steady_cycle :
  total_samples (collected (cycle strip0 16000 steady_env)) = 31744%Z ∧
  length (transcribe_calls (cycle strip0 16000 steady_env)) = 1.
Proof. vm_compute. split; reflexivity. Qed.

(** Exactly two seconds collected: one call. *)
Example two_seconds_cycle :
  total_samples (collected (cycle strip0 16000 two_seconds_env)) = (2 * 16000)%Z ∧
  length (transcribe_calls (cycle strip0 16000 two_seconds_env)) = 1.
Proof. vm_compute. split; reflexivity. Qed.

(** The one-block cycle transcribes exactly that block. *)
Lemma cycle_transcribes_whatever_was_collected_witness :
  transcribe_calls (cycle strip0 16000 one_block_env) = [block].
Proof.
  rewrite (proj2 (proj2 (proj2 (proj2 (proj2
             (cycle_transcribes_whatever_was_collected strip0 16000 one_block_env))))));
    [vm_compute; reflexivity | vm_compute; reflexivity | reflexivity | reflexivity].
Defined.

End ListenerRuns.

(** ** The speech queue and its worker (speaker.py) *)

Section SpeakerFacts.
Import SpeakerQueue.

Lemma enqueued_snoc t e :
  enqueued (t ++ [e]) = enqueued t ++ match e with Enqueued x => [x] | _ => [] end.
Proof. unfold enqueued. rewrite omap_app. by destruct e. Qed.

Lemma dequeued_snoc t e :
  dequeued (t ++ [e]) = dequeued t ++ match e with Dequeued x => [x] | _ => [] end.
Proof. unfold dequeued. rewrite omap_app. by destruct e. Qed.

Lemma outcomes_snoc t e :
  outcomes (t ++ [e])
  = outcomes t ++ match e with
                  | PlayStart x => [(x, true)]
                  | SynthesisFailed x => [(x, false)]
                  | _ => []
                  end.
Proof. unfold outcomes. rewrite omap_app. by destruct e. Qed.

Lemma active_snoc t e : active (t ++ [e]) = (active t + delta e)%Z.
Proof.
  unfold active, played, finished. rewrite !omap_app, !length_app.
  destruct e; cbn; lia.
Qed.

Lemma serial_nil : serial [].
Proof. intros t1 e t2 H. by destruct t1. Qed.

Lemma serial_snoc t e :
  serial t →
  match e with
  | Dequeued _ | PlayStart _ => active t = 0%Z
  | PlayEnd _ => active t = 1%Z
  | _ => True
  end →
  serial (t ++ [e]).
Proof.
  intros Ht He t1 e' t2 Heq.
  destruct t2 as [|x t2 _] using rev_ind.
  - apply app_inj_tail in Heq as [<- <-]. exact He.
  - rewrite app_comm_cons, app_assoc in Heq.
    apply app_inj_tail in Heq as [-> _]. by eapply Ht.
Qed.

(** The playbacks are the successful outcomes, in order. *)
Lemma played_outcomes t :
  played t = map fst (filter (λ o, o.2 = true) (outcomes t)).
Proof.
  induction t as [|e t IH] using rev_ind; [done|].
  unfold played in *. rewrite omap_app, outcomes_snoc, filter_app, map_app, <- IH.
  f_equal. by destruct e.
Qed.

Lemma spoken_snoc schedule a :
  spoken (schedule ++ [a])
  = spoken schedule ++ match a with Speak x => [x] | _ => [] end.
Proof. unfold spoken. rewrite omap_app. by destruct a. Qed.

Lemma accepted_snoc texts x :
  accepted (texts ++ [x]) = accepted texts ++ (if String.eqb x "" then [] else [x]).
Proof.
  unfold accepted. rewrite filter_app, filter_cons. cbn.
  destruct (String.eqb_spec x ""); by case_decide.
Qed.

Lemma invariant_started : invariant [] started.
Proof.
  unfold invariant. cbn. repeat split; try done. apply serial_nil.
Qed.

Lemma invariant_step schedule a self :
  invariant schedule self → invariant (schedule ++ [a]) (step a self).
Proof.
  intros (He & Hd & Ho & Hq & Ha & Hs). unfold invariant.
  rewrite spoken_snoc.
  destruct a as [text| |c p]; cbn [step].
  - (* speak *)
    rewrite accepted_snoc. unfold speak.
    destruct (String.eqb_spec text "") as [->|Hne].
    + by rewrite app_nil_r.
    + cbn [emit trace speech_queue worker is_speaking].
      rewrite enqueued_snoc, dequeued_snoc, outcomes_snoc, active_snoc.
      cbn [delta]. rewrite !app_nil_r, Z.add_0_r.
      split; [by rewrite He|]. split; [by rewrite app_assoc, Hd|].
      split; [done|]. split; [|split; [done|by apply serial_snoc]].
      apply Forall_app. split; [done|]. by constructor.
  - (* stop *)
    rewrite app_nil_r. by cbn.
  - (* the worker moves *)
    rewrite app_nil_r. unfold worker_step.
    destruct (worker self) as [| |text|text| |] eqn:Hpc.
    + destruct (is_speaking self); by cbn.
    + destruct (speech_queue self) as [|text rest] eqn:Hqueue.
      { cbn [goto emit trace speech_queue worker is_speaking pending].
        by rewrite Hqueue. }
      apply Forall_cons in Hq as [Hne Hq].
      destruct (String.eqb_spec text "") as [->|_]; [done|].
      cbn [goto emit trace speech_queue worker is_speaking pending].
      rewrite enqueued_snoc, dequeued_snoc, outcomes_snoc, active_snoc.
      cbn [delta]. cbn [pending] in Ho. rewrite !app_nil_r, Z.add_0_r in *.
      split; [done|]. split; [by rewrite <- app_assoc|].
      split; [by rewrite Ho|]. split; [done|].
      split; [done|by apply serial_snoc].
    + cbn [pending] in Ho. destruct c;
        cbn [goto emit trace speech_queue worker is_speaking pending];
        rewrite enqueued_snoc, dequeued_snoc, outcomes_snoc, active_snoc;
        cbn [delta]; rewrite ?map_app, ?Z.add_0_r; repeat rewrite app_nil_r;
        cbn [map fst]; cbn in Ha;
        (split; [done|]); (split; [done|]); (split; [done|]); (split; [done|]);
        (split; [lia|by apply serial_snoc]).
    + cbn [pending] in Ho. rewrite app_nil_r in Ho. destruct p;
        cbn [goto emit trace speech_queue worker is_speaking pending];
        rewrite enqueued_snoc, dequeued_snoc, outcomes_snoc, active_snoc;
        cbn [delta]; repeat rewrite app_nil_r;
        cbn in Ha;
        (split; [done|]); (split; [done|]); (split; [done|]); (split; [done|]);
        (split; [lia|by apply serial_snoc]).
    + by cbn.
    + by cbn; rewrite Hpc.
Qed.

Lemma run_snoc schedule a self :
  run (schedule ++ [a]) self = step a (run schedule self).
Proof. unfold run. by rewrite fold_left_app. Qed.

Lemma invariant_run schedule : invariant schedule (run schedule started).
Proof.
  induction schedule as [|a schedule IH] using rev_ind.
  - exact invariant_started.
  - rewrite run_snoc. by apply invariant_step.
Qed.

(** C5, as the code has it.  Whatever the interleaving of [speak] calls,
    [stop] and the moves of the worker: the queue is FIFO (the texts taken
    off it, followed by those still on it, are the non-empty texts passed to
    [speak], in call order); every text taken off has had its synthesis
    attempted, but for the one the worker still holds; a playback is started
    exactly for the texts whose synthesis succeeded, in that order, a text
    whose synthesis raises being skipped; at most one playback is active at
    any time, none when an item is taken off the queue or a playback
    starts.  Once the queue is drained and every synthesis has succeeded,
    the playbacks are exactly the non-empty texts, in enqueue order. *)
Theorem playback_is_serial_and_in_order (schedule : list Action) :
  let self := run schedule started in
  dequeued (trace self) ++ speech_queue self = accepted (spoken schedule) ∧
  map fst (outcomes (trace self)) ++ pending (worker self) = dequeued (trace self) ∧
  played (trace self) = map fst (filter (λ o, o.2 = true) (outcomes (trace self))) ∧
  (0 ≤ active (trace self) ≤ 1)%Z ∧
  serial (trace self) ∧
  (speech_queue self = [] → pending (worker self) = [] →
   Forall (λ o, o.2 = true) (outcomes (trace self)) →
   played (trace self) = accepted (spoken schedule)).
Proof.
  cbn zeta.
  destruct (invariant_run schedule) as (He & Hd & Ho & Hq & Ha & Hs).
  split; [by rewrite Hd|]. split; [done|].
  split; [apply played_outcomes|].
  split; [rewrite Ha; destruct (worker _); lia|].
  split; [done|].
  intros Hempty Hpending Hall.
  rewrite played_outcomes, <- He, <- Hd, <- Ho, Hempty, Hpending, !app_nil_r.
  f_equal. clear -Hall.
  induction Hall as [|o os Ho _ IH]; [done|].
  rewrite filter_cons_True by done. by f_equal.
Qed.

End SpeakerFacts.

(** *** Concrete runs of the speaker *)

Section SpeakerRuns.
Import SpeakerQueue Samples.

(** "a", "b", "c": played in that order, one at a time. *)
Example abc_played_in_order :
  played (trace (run abc_schedule started)) = ["a"; "b"; "c"] ∧
  trace (run abc_schedule started)
  = [Enqueued "a"; Enqueued "b"; Enqueued "c";
     Dequeued "a"; PlayStart "a"; PlayEnd "a";
     Dequeued "b"; PlayStart "b"; PlayEnd "b";
     Dequeued "c"; PlayStart "c"; PlayEnd "c"].
Proof. split; reflexivity. Qed.

(** C5 fails as stated: "a" is enqueued and taken off the queue, its
    synthesis raises, and the worker is back at the head of its loop with an
    empty queue: no playback was invoked for the non-empty text "a". *)
Lemma failed_synthesis_is_not_played :
  accepted (spoken failed_synthesis_schedule) = ["a"] ∧
  speech_queue (run failed_synthesis_schedule started) = [] ∧
  worker (run failed_synthesis_schedule started) = AtLoopHead ∧
  played (trace (run failed_synthesis_schedule started)) = [].
Proof. repeat split; reflexivity. Qed.

(** With every synthesis succeeding, "a", "b", "c" are all played. *)
Lemma playback_is_serial_and_in_order_witness :
  played (trace (run abc_schedule started)) = accepted (spoken abc_schedule).
Proof.
  apply (proj2 (proj2 (proj2 (proj2 (proj2
           (playback_is_serial_and_in_order abc_schedule)))))).
  - reflexivity.
  - reflexivity.
  - repeat constructor.
Defined.

End SpeakerRuns.

(** ** Chunking text (helpers.py) *)

Section HelpersFacts.
Import Helpers.

Lemma append_cons c (s t : string) : String c s +:+ t = String c (s +:+ t).
Proof. reflexivity. Qed.

Lemma append_nil_l (t : string) : "" +:+ t = t.
Proof. reflexivity. Qed.

Lemma append_nil_r (s : string) : s +:+ "" = s.
Proof. induction s as [|c s IH]; [done|]. by rewrite append_cons, IH. Qed.

Lemma append_assoc (s1 s2 s3 : string) : (s1 +:+ s2) +:+ s3 = s1 +:+ (s2 +:+ s3).
Proof. induction s1 as [|c s1 IH]; [done|]. by rewrite !append_cons, IH. Qed.

Lemma length_append (s1 s2 : string) :
  String.length (s1 +:+ s2) = String.length s1 + String.length s2.
Proof. induction s1 as [|c s1 IH]; [done|]. rewrite append_cons. cbn. by rewrite IH. Qed.

Lemma no_space_append s1 s2 :
  no_space (s1 +:+ s2) = no_space s1 && no_space s2.
Proof.
  induction s1 as [|c s1 IH]; [done|]. rewrite append_cons. cbn.
  rewrite IH. by rewrite andb_assoc.
Qed.

(** [split] yields words. *)
Lemma split_from_words text : ∀ cur,
  no_space cur = true → Forall is_word (split_from cur text).
Proof.
  induction text as [|c text IH]; intros cur Hcur; cbn [split_from].
  - destruct (String.eqb_spec cur ""); [done|]. by repeat constructor.
  - destruct (is_space c) eqn:Hc.
    + destruct (String.eqb_spec cur ""); [by apply IH|].
      constructor; [done|]. by apply IH.
    + apply IH. rewrite no_space_append, Hcur. cbn. by rewrite Hc.
Qed.

Lemma split_words text : Forall is_word (split text).
Proof. by apply split_from_words. Qed.

(** Reading a space-free stretch only extends the current run. *)
Lemma split_from_append w : ∀ cur rest,
  no_space w = true → split_from cur (w +:+ rest) = split_from (cur +:+ w) rest.
Proof.
  induction w as [|c w IH]; intros cur rest Hw.
  - by rewrite append_nil_l, append_nil_r.
  - cbn in Hw. apply andb_true_iff in Hw as [Hc Hw].
    apply negb_true_iff in Hc. rewrite append_cons. cbn [split_from]. rewrite Hc.
    rewrite IH by done. by rewrite append_assoc.
Qed.

Lemma join_cons2 w w' words :
  join " " (w :: w' :: words) = w +:+ String " " (join " " (w' :: words)).
Proof. reflexivity. Qed.

(** Splitting the words joined by single blanks gives the words back. *)
Lemma split_join words : Forall is_word words → split (join " " words) = words.
Proof.
  unfold split. induction 1 as [|w words [Hne Hw] Hall IH]; [done|].
  destruct words as [|w' words].
  - cbn [join]. rewrite <- (append_nil_r w) at 1.
    rewrite split_from_append, append_nil_l by done. cbn [split_from].
    by destruct (String.eqb_spec w "").
  - rewrite join_cons2, split_from_append, append_nil_l by done.
    cbn [split_from]. change (is_space " ") with true. cbv iota.
    destruct (String.eqb_spec w ""); [done|]. by rewrite IH.
Qed.

Lemma size_of_app l1 l2 : size_of (l1 ++ l2) = (size_of l1 + size_of l2)%Z.
Proof. induction l1 as [|w l1 IH]; cbn; [done|]. rewrite IH. lia. Qed.

Lemma size_of_nonneg l : (0 ≤ size_of l)%Z.
Proof. induction l as [|w l IH]; cbn; unfold len; lia. Qed.

Lemma size_of_elem w l : w ∈ l → (len w + 1 ≤ size_of l)%Z.
Proof.
  induction 1 as [w l|w w' l _ IH]; cbn.
  - pose proof (size_of_nonneg l). lia.
  - unfold len in *. lia.
Qed.

(** The length of a joined group is its size less the blank counted for the
    last word. *)
Lemma len_join group : group ≠ [] → len (join " " group) = (size_of group - 1)%Z.
Proof.
  induction group as [|w group IH]; [done|]. intros _.
  destruct group as [|w' group].
  - cbn. lia.
  - rewrite join_cons2. unfold len in *. rewrite length_append.
    specialize (IH ltac:(done)).
    cbn [String.length size_of] in *. unfold len in *. lia.
Qed.

Lemma group_ok_single size w : group_ok size [w].
Proof.
  split; [cbn; lia|]. intros w' Hin _. by apply list_elem_of_singleton in Hin as ->.
Qed.

(** The loop's invariant: the chunks made so far are the joined groups
    [gs], [current_chunk] is a group in the making, and the groups followed
    by [current_chunk] and the words still to read are the words read so
    far and still to read. *)
Lemma chunk_loop_groups words : ∀ size chunks cur cur_size gs,
  chunks = map (join " ") gs →
  cur_size = size_of cur →
  group_ok size cur →
  Forall (group_ok size) gs →
  ∃ gs', chunk_loop words size chunks cur cur_size = map (join " ") gs' ∧
         concat gs' = concat gs ++ cur ++ words ∧
         Forall (group_ok size) gs'.
Proof.
  induction words as [|word rest IH]; intros size chunks cur cur_size gs -> -> Hcur Hgs.
  - cbn [chunk_loop]. destruct cur as [|w cur].
    + exists gs. by rewrite !app_nil_r.
    + exists (gs ++ [w :: cur]). rewrite map_app, concat_app. cbn [map concat].
      rewrite !app_nil_r. split; [done|]. split; [done|].
      apply Forall_app. split; [done|]. by constructor.
  - cbn [chunk_loop].
    destruct (Z.ltb_spec size (size_of cur + (len word + 1))) as [Hbig|Hfits].
    + destruct (IH size (map (join " ") gs ++ [join " " cur]) [word] (len word + 1)%Z
                  (gs ++ [cur])) as (gs' & Hloop & Hconcat & Hok).
      * by rewrite map_app.
      * cbn. lia.
      * apply group_ok_single.
      * apply Forall_app. split; [done|]. by constructor.
      * exists gs'. split; [done|]. split; [|done].
        rewrite Hconcat, concat_app. cbn [concat]. by rewrite app_nil_r, <- !app_assoc.
    + destruct (IH size (map (join " ") gs) (cur ++ [word])
                  (size_of cur + (len word + 1))%Z gs) as (gs' & Hloop & Hconcat & Hok).
      * done.
      * rewrite size_of_app. cbn. lia.
      * assert (size_of (cur ++ [word]) ≤ size)%Z as Hle
          by (rewrite size_of_app; cbn; lia).
        split; [done|]. intros w Hin Hw.
        apply size_of_elem in Hin. lia.
      * done.
      * exists gs'. split; [done|]. split; [|done].
        rewrite Hconcat. by rewrite <- !app_assoc.
Qed.

Lemma Forall_concat_inv {A} (P : A → Prop) (gs : list (list A)) :
  Forall P (concat gs) → Forall (Forall P) gs.
Proof.
  induction gs as [|g gs IH]; [done|]. cbn [concat].
  intros [Hg Hgs]%Forall_app. constructor; [done|]. by apply IH.
Qed.

Lemma map_split_join gs :
  Forall (Forall is_word) gs → map split (map (join " ") gs) = gs.
Proof.
  induction 1 as [|g gs Hg _ IH]; [done|].
  cbn [map]. by rewrite split_join, IH.
Qed.

Lemma elem_of_concat_inv {A} (x : A) (gs : list (list A)) :
  x ∈ concat gs → ∃ g, g ∈ gs ∧ x ∈ g.
Proof.
  induction gs as [|g gs IH]; cbn [concat].
  - by intros ?%elem_of_nil.
  - intros [Hx|Hx]%elem_of_app.
    + exists g. split; [left|done].
    + destruct (IH Hx) as (g' & Hg' & Hx'). exists g'. split; [by right|done].
Qed.

Lemma elem_of_map_inv {A B} (f : A → B) (y : B) (l : list A) :
  y ∈ map f l → ∃ x, x ∈ l ∧ y = f x.
Proof.
  induction l as [|x l IH]; cbn [map].
  - by intros ?%elem_of_nil.
  - intros [->|Hy]%elem_of_cons.
    + exists x. split; [left|done].
    + destruct (IH Hy) as (x' & Hx' & ->). exists x'. split; [by right|done].
Qed.

Lemma elem_of_map_intro {A B} (f : A → B) (x : A) (l : list A) :
  x ∈ l → f x ∈ map f l.
Proof. induction 1; cbn [map]; [left|by right]. Qed.

(** C10. [chunk_text] partitions the words of the text: the words of the
    chunks, concatenated in order, are the words of the text; a chunk of at
    least two words is no longer than [chunk_size]; a word longer than
    [chunk_size] is a chunk of its own, and no other chunk contains it.
    This holds for every [chunk_size], the positive ones included. *)
Theorem chunk_text_partitions_words (text : string) (chunk_size : Z) :
  let chunks := chunk_text text chunk_size in
  concat (map split chunks) = split text ∧
  (∀ chunk, chunk ∈ chunks → 2 ≤ length (split chunk) → (len chunk ≤ chunk_size)%Z) ∧
  (∀ w, w ∈ split text → (chunk_size < len w)%Z →
        w ∈ chunks ∧ ∀ chunk, chunk ∈ chunks → w ∈ split chunk → chunk = w).
Proof.
  cbn zeta. unfold chunk_text.
  destruct (chunk_loop_groups (split text) chunk_size [] [] 0 [])
    as (gs & -> & Hconcat & Hok); [done | done | | done |].
  { split; [cbn; lia|]. by intros w ?%elem_of_nil. }
  cbn [concat app] in Hconcat.
  assert (Forall (Forall is_word) gs) as Hwords.
  { apply Forall_concat_inv. rewrite Hconcat. apply split_words. }
  split; [by rewrite map_split_join|]. split.
  - intros chunk (g & Hg & ->)%elem_of_map_inv Hlen.
    rewrite Forall_forall in Hwords, Hok.
    rewrite split_join in Hlen by auto.
    destruct (Hok g Hg) as [Hsize _].
    rewrite len_join by (intros ->; cbn in Hlen; lia).
    specialize (Hsize Hlen). lia.
  - intros w Hw Hbig. rewrite <- Hconcat in Hw.
    apply elem_of_concat_inv in Hw as (g & Hg & Hwg).
    rewrite Forall_forall in Hwords, Hok.
    destruct (Hok g Hg) as [_ Hsingle].
    pose proof (Hsingle w Hwg Hbig) as ->.
    split; [exact (elem_of_map_intro (join " ") [w] gs Hg)|].
    intros chunk (g' & Hg' & ->)%elem_of_map_inv Hin.
    rewrite split_join in Hin by auto.
    destruct (Hok g' Hg') as [_ Hsingle'].
    by rewrite (Hsingle' w Hin Hbig).
Qed.

(** A chunk of two words within the bound, and a long word on its own. *)
Example chunk_text_sample :
  chunk_text "aa bb  cccccccccc dd" 6 = ["aa bb"; "cccccccccc"; "dd"].
Proof. reflexivity. Qed.

(** When the first word does not fit, the loop first flushes the empty
    chunk. *)
Example chunk_text_leading_long_word :
  chunk_text "cccccccccc dd" 6 = [""; "cccccccccc"; "dd"].
Proof. reflexivity. Qed.

(** On the sample text: the long word is a chunk, the two-word chunk is
    within the bound. *)
Lemma chunk_text_partitions_words_witness :
  "cccccccccc" ∈ chunk_text "aa bb  cccccccccc dd" 6 ∧
  (len "aa bb" ≤ 6)%Z.
Proof.
  destruct (chunk_text_partitions_words "aa bb  cccccccccc dd" 6)
    as (_ & Hshort & Hlong).
  split.
  - apply (Hlong "cccccccccc"); [|reflexivity].
    vm_compute. do 2 right. left.
  - apply (Hshort "aa bb"); [left | vm_compute; lia].
Defined.

End HelpersFacts.

(** * Further properties of the code *)

Set Warnings "-clear-no-such-hyp".

(** ** The memory modules: references, participants, ids, search hits *)

Section MemoryMore.
Import VectorDB Context.
Context {Chroma : Type}.
Variable collection_add :
  partition → string → gmap string string → string → Chroma → res unit * Chroma.
Variable collection_query :
  partition → string → Z → Chroma → res QueryResult * Chroma.
Variable strftime : Z → string.

Abbreviation add_message_turn' := (add_message_turn collection_add strftime).
Abbreviation add_messages' := (add_messages collection_add strftime).
Abbreviation add_reference' := (Context.add_reference collection_add strftime).
Abbreviation add_references' := (add_references collection_add strftime).

Lemma getitem_some {A} (l : list A) i x (w : World Chroma) :
  l !! i = Some x → getitem l i w = (Ret x, w).
Proof. intros H. unfold getitem. by rewrite H. Qed.

Lemma getitem_none {A} (l : list A) i (w : World Chroma) :
  l !! i = None →
  getitem l i w = (Raise (PyExc "IndexError" "list index out of range"), w).
Proof. intros H. unfold getitem. by rewrite H. Qed.

(** X1. [remove_reference] drops every active reference that carries the
    id, duplicates included, keeps the others in their order, and touches
    nothing else; removing an id that is not there, or removing twice,
    changes nothing. *)
Theorem remove_reference_removes_every_match (rid : string) (self : ContextManager) :
  let self' := remove_reference rid self in
  (∀ r, r ∈ get_active_references self' ↔
        r ∈ get_active_references self ∧ ref_id r ≠ rid) ∧
  sublist (get_active_references self') (get_active_references self) ∧
  window self' = window self ∧
  participants (current_context self') = participants (current_context self) ∧
  current_topic (current_context self') = current_topic (current_context self) ∧
  (Forall (λ r, ref_id r ≠ rid) (get_active_references self) →
   get_active_references self' = get_active_references self) ∧
  remove_reference rid self' = self'.
Proof.
  cbn zeta. unfold remove_reference, get_active_references, window. cbn.
  split; [intros r; rewrite list_elem_of_filter; by split; intros [? ?]|].
  split; [apply sublist_filter|]. split; [done|]. split; [done|]. split; [done|].
  split.
  - intros Hall. induction Hall as [|r rs Hr _ IH]; [done|].
    rewrite filter_cons_True by done. by f_equal.
  - f_equal. f_equal.
    induction (active_references (current_context self)) as [|r rs IH]; [done|].
    rewrite filter_cons. case_decide; [|done].
    rewrite filter_cons_True by done. by f_equal.
Qed.

(** What a returning [add_reference] does to the manager. *)
Lemma add_reference_inv content url metadata self (w : World Chroma) rid self' w' :
  add_reference' content url metadata self w = (Ret (rid, self'), w') →
  window self' = window self ∧
  participants (current_context self') = participants (current_context self) ∧
  max_recent_messages self' = max_recent_messages self ∧
  ∃ r, ref_id r = rid ∧ ref_url r = url ∧
       get_active_references self' = get_active_references self ++ [r].
Proof.
  unfold Context.add_reference. intros H.
  apply bind_inv_ret in H as (rid' & w1 & _ & H).
  apply bind_inv_ret in H as (now & w2 & _ & H).
  unfold ret in H. injection H as <- <- <-. cbn.
  repeat split. by eexists (MkActiveRef _ _ _).
Qed.

Lemma add_reference_returns content url metadata self (w : World Chroma) :
  add_never_raises collection_add →
  ∃ rid self' w', add_reference' content url metadata self w = (Ret (rid, self'), w').
Proof.
  intros Hok.
  unfold Context.add_reference, VectorDB.add_reference, time_strftime, bind, time_time,
    call_backend, ret. cbn.
  match goal with |- context [collection_add ?p ?d ?m ?i ?c] =>
    destruct (Hok p d m i c) as [c' ->] end.
  eauto.
Qed.

Lemma add_references_run calls : ∀ self (w : World Chroma) self' w' added,
  add_references' calls self w = (self', w', added) →
  window self' = window self ∧
  participants (current_context self') = participants (current_context self) ∧
  map (λ r, (ref_id r, ref_url r)) (get_active_references self')
  = map (λ r, (ref_id r, ref_url r)) (get_active_references self) ++ added ∧
  sublist (map snd added) (map refcall_url calls) ∧
  (add_never_raises collection_add → map snd added = map refcall_url calls).
Proof.
  induction calls as [|c calls IH]; intros self w self' w' added Hrun.
  - cbn in Hrun. injection Hrun as <- <- <-. rewrite app_nil_r.
    repeat split; done.
  - cbn [Context.add_references] in Hrun.
    destruct (add_reference' _ _ _ self w) as [[[rid self1]|e] w1] eqn:Hadd.
    + destruct (add_references' calls self1 w1) as [[self2 w2] added1] eqn:Hrest.
      injection Hrun as <- <- <-.
      apply add_reference_inv in Hadd as (Hw & Hp & _ & r & Hid & Hurl & Hact).
      destruct (IH _ _ _ _ _ Hrest) as (Hw2 & Hp2 & Hact2 & Hsub & Hall).
      split; [congruence|]. split; [congruence|]. split.
      { rewrite Hact2, Hact, map_app, <- app_assoc. cbn. by rewrite Hid, Hurl. }
      split; [cbn; by apply sublist_skip|].
      intros Hok. cbn. f_equal. by apply Hall.
    + destruct (IH _ _ _ _ _ Hrun) as (Hw2 & Hp2 & Hact2 & Hsub & Hall).
      split; [done|]. split; [done|]. split; [done|].
      split; [cbn; by apply sublist_cons|].
      intros Hok.
      destruct (add_reference_returns (refcall_content c) (refcall_url c)
                  (refcall_metadata c) self w Hok) as (? & ? & ? & Hret).
      rewrite Hret in Hadd. discriminate.
Qed.

(** X2. The active references are not bounded: every [add_reference] call
    that returns appends one entry, carrying the id the store call returned
    and the call's url, after the entries already there; none is ever
    evicted, and the recency window and the participants are untouched.
    When the store accepts every document, every call adds its entry. *)
Theorem active_references_grow_unbounded (calls : list RefCall)
    (self : ContextManager) (w : World Chroma) :
  let r := add_references' calls self w in
  map (λ r, (ref_id r, ref_url r)) (get_active_references r.1.1)
  = map (λ r, (ref_id r, ref_url r)) (get_active_references self) ++ r.2 ∧
  length (get_active_references r.1.1)
  = length (get_active_references self) + length r.2 ∧
  window r.1.1 = window self ∧
  participants (current_context r.1.1) = participants (current_context self) ∧
  (add_never_raises collection_add →
   map snd r.2 = map refcall_url calls ∧
   length (get_active_references r.1.1)
   = length (get_active_references self) + length calls).
Proof.
  destruct (add_references' calls self w) as [[self' w'] added] eqn:Hrun. cbn.
  destruct (add_references_run calls self w self' w' added Hrun)
    as (Hw & Hp & Hact & _ & Hall).
  assert (length (get_active_references self')
          = length (get_active_references self) + length added) as Hlen.
  { apply (f_equal length) in Hact. by rewrite length_app, !length_map in Hact. }
  split; [done|]. split; [done|]. split; [done|]. split; [done|].
  intros Hok. specialize (Hall Hok). split; [done|].
  apply (f_equal length) in Hall. rewrite !length_map in Hall. lia.
Qed.

Lemma add_message_turn_participants text speaker metadata self (w : World Chroma)
    turn self' w' :
  add_message_turn' text speaker metadata self w = (Ret (turn, self'), w') →
  participants (current_context self')
  = {[speaker]} ∪ participants (current_context self) ∧
  msg_speaker turn = speaker.
Proof.
  unfold Context.add_message_turn. intros H.
  apply bind_inv_ret in H as (mid & w1 & _ & H).
  apply bind_inv_ret in H as (now & w2 & _ & H).
  unfold ret in H. by injection H as <- <- <-.
Qed.

Lemma add_messages_participants calls : ∀ self (w : World Chroma) self' w' added,
  add_messages' calls self w = (self', w', added) →
  participants (current_context self')
  = participants (current_context self) ∪ list_to_set (map msg_speaker added).
Proof.
  induction calls as [|c calls IH]; intros self w self' w' added Hrun.
  - cbn in Hrun. injection Hrun as <- <- <-. cbn. set_solver.
  - cbn [Context.add_messages] in Hrun.
    destruct (add_message_turn' _ _ _ self w) as [[[turn self1]|e] w1] eqn:Hturn.
    + destruct (add_messages' calls self1 w1) as [[self2 w2] added1] eqn:Hrest.
      injection Hrun as <- <- <-.
      apply add_message_turn_participants in Hturn as [Hp Hs].
      rewrite (IH _ _ _ _ _ Hrest), Hp. cbn. rewrite Hs. set_solver.
    + eauto.
Qed.

(** X3. The participants are the speakers of all the turns added since the
    manager was constructed, those of turns already evicted from the window
    included: the set only grows, and every speaker in the window is in
    it. *)
Theorem participants_outlive_the_window (calls : list Call) (w : World Chroma) :
  let r := add_messages' calls init w in
  participants (current_context r.1.1) = list_to_set (map msg_speaker r.2) ∧
  (∀ m, m ∈ window r.1.1 → msg_speaker m ∈ participants (current_context r.1.1)).
Proof.
  destruct (add_messages' calls init w) as [[self' w'] added] eqn:Hrun. cbn.
  pose proof (add_messages_participants calls init w self' w' added Hrun) as Hp.
  cbn in Hp. rewrite union_empty_l_L in Hp. split; [done|].
  intros m Hm. rewrite Hp.
  destruct (add_messages_fresh collection_add strftime calls w self' w' added Hrun)
    as [Hwin _].
  rewrite Hwin in Hm. apply elem_of_list_to_set, elem_of_map_intro.
  eapply elem_of_sublist; [exact Hm | apply sublist_drop].
Qed.

(** X4. On a non-empty window the summary reads the clock once and its
    [duration] is that reading less the timestamp of the oldest turn still
    in the window: once more than ten turns were added it no longer
    measures from the first turn of the conversation. *)
Theorem summary_duration_since_oldest_in_window (calls : list Call)
    (w : World Chroma) :
  let r := add_messages' calls init w in
  r.2 ≠ [] →
  ∃ m s w',
    r.2 !! (length r.2 - 10) = Some m ∧
    get_conversation_summary r.1.1 r.1.2 = (Ret s, w') ∧
    duration s = (clock r.1.2 (reads r.1.2) - msg_timestamp m)%Z ∧
    reads w' = S (reads r.1.2).
Proof.
  destruct (add_messages' calls init w) as [[self' w'] added] eqn:Hrun. cbn.
  intros Hne.
  destruct (add_messages_fresh collection_add strftime calls w self' w' added Hrun)
    as [Hwin _].
  destruct (lookup_lt_is_Some_2 added (length added - 10)) as [m Hm].
  { destruct added; [done|]. cbn. lia. }
  exists m.
  assert (window self' = m :: drop (S (length added - 10)) added) as Hwin'.
  { rewrite Hwin. by apply drop_S. }
  unfold get_conversation_summary, bind, time_time, ret.
  unfold window in Hwin'. rewrite Hwin'. cbn.
  eexists _, _. split; [exact Hm|]. split; [reflexivity|]. by split.
Qed.

(** The id [add_conversation] returns is a function of its first clock
    read. *)
Lemma add_conversation_id text speaker metadata (w : World Chroma) eid w' :
  add_conversation collection_add strftime text speaker metadata w = (Ret eid, w') →
  eid = "conv_" +:+ pretty (millis (clock w (reads w))).
Proof.
  unfold add_conversation. intros H.
  apply bind_inv_ret in H as (t & w1 & Ht & H).
  apply bind_inv_ret in H as (ts & w2 & _ & H).
  apply bind_inv_ret in H as (u & w3 & _ & H).
  unfold ret in H. injection H as <- _.
  unfold time_time in Ht. by injection Ht as <- _.
Qed.

Lemma add_reference_id content url metadata (w : World Chroma) eid w' :
  VectorDB.add_reference collection_add strftime content url metadata w = (Ret eid, w') →
  eid = "ref_" +:+ pretty (millis (clock w (reads w))).
Proof.
  unfold VectorDB.add_reference. intros H.
  apply bind_inv_ret in H as (t & w1 & Ht & H).
  apply bind_inv_ret in H as (ts & w2 & _ & H).
  apply bind_inv_ret in H as (u & w3 & _ & H).
  unfold ret in H. injection H as <- _.
  unfold time_time in Ht. by injection Ht as <- _.
Qed.

(** X5. The id of a stored conversation turn is "conv_" followed by the
    clock reading in whole milliseconds, and nothing else: two turns stored
    within the same millisecond get the same id, whatever their text and
    speaker, two turns of different milliseconds get different ids, and no
    conversation id is a reference id. *)
Theorem conversation_ids_are_millisecond_stamps
    (text1 speaker1 text2 speaker2 : string)
    (metadata1 metadata2 : option (gmap string string))
    (w1 w2 : World Chroma) (eid1 eid2 : string) (w1' w2' : World Chroma) :
  add_conversation collection_add strftime text1 speaker1 metadata1 w1 = (Ret eid1, w1') →
  add_conversation collection_add strftime text2 speaker2 metadata2 w2 = (Ret eid2, w2') →
  (eid1 = eid2 ↔ millis (clock w1 (reads w1)) = millis (clock w2 (reads w2))) ∧
  (∀ content url metadata w3 rid w3',
     VectorDB.add_reference collection_add strftime content url metadata w3
     = (Ret rid, w3') → rid ≠ eid1).
Proof.
  intros H1%add_conversation_id H2%add_conversation_id. subst. split.
  - split; [|by intros ->].
    intros Heq. apply (inj (String.append "conv_")) in Heq.
    by apply (inj pretty) in Heq.
  - intros content url metadata w3 rid w3' H3%add_reference_id. subst.
    discriminate.
Qed.

Lemma hits_length docs : ∀ metas eids,
  length docs ≤ length metas → length docs ≤ length eids →
  length (hits docs metas eids) = length docs.
Proof.
  induction docs as [|d docs IH]; intros [|m metas] [|e eids] Hm He; cbn in *;
    try lia. rewrite IH; lia.
Qed.

(** The formatting loop on an answer whose lists are long enough. *)
Lemma format_results_hits r docs metas eids (w : World Chroma) :
  documents r !! 0 = Some docs → metadatas r !! 0 = Some metas →
  ids r !! 0 = Some eids →
  length docs ≤ length metas → length docs ≤ length eids →
  ∀ rest i formatted,
    rest = drop i docs →
    format_results r rest i formatted w
    = (Ret (formatted ++ hits (drop i docs) (drop i metas) (drop i eids)), w).
Proof.
  intros Hd Hm He Hlm Hle rest.
  induction rest as [|x rest IH]; intros i formatted Hrest.
  - rewrite <- Hrest. cbn. by rewrite app_nil_r.
  - assert (i < length docs) as Hi.
    { destruct (decide (i < length docs)); [done|].
      rewrite drop_ge in Hrest by lia. done. }
    destruct (lookup_lt_is_Some_2 docs i Hi) as [d Hdi].
    destruct (lookup_lt_is_Some_2 metas i ltac:(lia)) as [m Hmi].
    destruct (lookup_lt_is_Some_2 eids i ltac:(lia)) as [e Hei].
    cbn [format_results].
    erewrite bind_ret_step by (by apply getitem_some).
    erewrite bind_ret_step by (by apply getitem_some).
    erewrite bind_ret_step by (by apply getitem_some).
    erewrite bind_ret_step by (by apply getitem_some).
    erewrite bind_ret_step by (by apply getitem_some).
    erewrite bind_ret_step by (by apply getitem_some).
    rewrite (drop_S docs d i Hdi) in Hrest. injection Hrest as -> ->.
    rewrite (IH (S i) _ eq_refl).
    rewrite (drop_S docs d i Hdi), (drop_S metas m i Hmi), (drop_S eids e i Hei).
    cbn [hits]. by rewrite <- app_assoc.
Qed.

(** X6. A search formats the first answer list of the backend position by
    position: when the metadata and id lists are at least as long as the
    document list, it returns one hit per document, in the backend's
    order, each with the document, the metadata and the id found at its
    position, and leaves the clock alone. *)
Theorem search_returns_one_hit_per_document (p : partition) (query : string)
    (n_results : Z) (w : World Chroma) (r : QueryResult) (c' : Chroma)
    (docs : list string) (metas : list (gmap string string)) (eids : list string) :
  collection_query p query n_results (backend w) = (Ret r, c') →
  documents r !! 0 = Some docs → metadatas r !! 0 = Some metas →
  ids r !! 0 = Some eids →
  length docs ≤ length metas → length docs ≤ length eids →
  search collection_query p query n_results w
  = (Ret (hits docs metas eids), MkWorld (clock w) (reads w) c') ∧
  length (hits docs metas eids) = length docs ∧
  map hit_text (hits docs metas eids) = docs.
Proof.
  intros Hq Hd Hm He Hlm Hle. split; [|split].
  - unfold search.
    erewrite bind_ret_step; [|unfold call_backend; by rewrite Hq].
    erewrite bind_ret_step by (by apply getitem_some).
    by rewrite (format_results_hits r docs metas eids _ Hd Hm He Hlm Hle docs 0 []).
  - by apply hits_length.
  - clear -Hlm Hle. revert metas eids Hlm Hle.
    induction docs as [|d docs IH]; intros [|m metas] [|e eids] Hm He; cbn in *;
      try lia; try done. f_equal. apply IH; lia.
Qed.

(** The formatting loop on an answer whose metadata or id list is too
    short. *)
Lemma format_results_short r docs metas eids (w : World Chroma) :
  documents r !! 0 = Some docs → metadatas r !! 0 = Some metas →
  ids r !! 0 = Some eids →
  length metas < length docs ∨ length eids < length docs →
  ∀ rest i formatted,
    rest = drop i docs → i ≤ length metas → i ≤ length eids →
    format_results r rest i formatted w
    = (Raise (PyExc "IndexError" "list index out of range"), w).
Proof.
  intros Hd Hm He Hshort rest.
  induction rest as [|x rest IH]; intros i formatted Hrest Him Hie.
  - apply (f_equal length) in Hrest. rewrite length_drop in Hrest. cbn in Hrest. lia.
  - assert (i < length docs) as Hi.
    { destruct (decide (i < length docs)); [done|].
      rewrite drop_ge in Hrest by lia. done. }
    destruct (lookup_lt_is_Some_2 docs i Hi) as [d Hdi].
    cbn [format_results].
    erewrite bind_ret_step by (by apply getitem_some).
    erewrite bind_ret_step by (by apply getitem_some).
    erewrite bind_ret_step by (by apply getitem_some).
    destruct (metas !! i) as [m|] eqn:Hmi.
    + erewrite bind_ret_step by (by apply getitem_some).
      erewrite bind_ret_step by (by apply getitem_some).
      destruct (eids !! i) as [e|] eqn:Hei.
      * erewrite bind_ret_step by (by apply getitem_some).
        rewrite (drop_S docs d i Hdi) in Hrest. injection Hrest as -> ->.
        apply lookup_lt_Some in Hmi, Hei.
        apply IH; [done|lia|lia].
      * apply bind_raise_step. by apply getitem_none.
    + apply bind_raise_step. by apply getitem_none.
Qed.

(** X7. A search raises [IndexError] when the backend's answer is
    malformed: when it carries no document list at all, and when the
    metadata or id list is shorter than the document list (no partial list
    of hits is returned). *)
Theorem search_raises_on_malformed_answer (p : partition) (query : string)
    (n_results : Z) (w : World Chroma) (r : QueryResult) (c' : Chroma) :
  collection_query p query n_results (backend w) = (Ret r, c') →
  (documents r = [] →
   search collection_query p query n_results w
   = (Raise (PyExc "IndexError" "list index out of range"),
      MkWorld (clock w) (reads w) c')) ∧
  (∀ docs metas eids,
     documents r !! 0 = Some docs → metadatas r !! 0 = Some metas →
     ids r !! 0 = Some eids →
     length metas < length docs ∨ length eids < length docs →
     search collection_query p query n_results w
     = (Raise (PyExc "IndexError" "list index out of range"),
        MkWorld (clock w) (reads w) c')).
Proof.
  intros Hq. split.
  - intros Hnil. unfold search.
    erewrite bind_ret_step; [|unfold call_backend; by rewrite Hq].
    apply bind_raise_step. apply getitem_none. by rewrite Hnil.
  - intros docs metas eids Hd Hm He Hshort. unfold search.
    erewrite bind_ret_step; [|unfold call_backend; by rewrite Hq].
    erewrite bind_ret_step by (by apply getitem_some).
    apply (format_results_short r docs metas eids) with (rest := docs);
      first [done | lia].
Qed.

Lemma stamped_metadata_agree (k1 k2 v1 v2 : string) (m1 m2 : gmap string string) :
  (∀ k, k ≠ k1 → k ≠ k2 → m1 !! k = m2 !! k) →
  <[k2 := v2]> (<[k1 := v1]> m1) = <[k2 := v2]> (<[k1 := v1]> m2).
Proof.
  intros Hagree. apply map_eq. intros k.
  destruct (decide (k = k2)) as [->|Hk2]; [by rewrite !lookup_insert_eq|].
  rewrite !(lookup_insert_ne _ k2) by done.
  destruct (decide (k = k1)) as [->|Hk1]; [by rewrite !lookup_insert_eq|].
  rewrite !(lookup_insert_ne _ k1) by done.
  by apply Hagree.
Qed.

Lemma metadata_or_empty (m : gmap string string) :
  (if decide (m = ∅) then ∅ else m) = m.
Proof. by case_decide. Qed.

(** X19. What the caller passes under the keys the store call fills in
    itself never reaches the store: [add_message] behaves the same for two
    metadata dicts that differ only under "speaker" and "timestamp" (so the
    timestamp the application passes is overwritten by the formatted one),
    and [add_reference] for two that differ only under "url" and
    "timestamp"; no metadata and an empty dict are the same. *)
Theorem caller_stamps_are_overwritten (text speaker url : string)
    (m1 m2 : gmap string string) (self : ContextManager) (w : World Chroma) :
  ((∀ k, k ≠ "speaker" → k ≠ "timestamp" → m1 !! k = m2 !! k) →
   Context.add_message collection_add strftime text speaker (Some m1) self w
   = Context.add_message collection_add strftime text speaker (Some m2) self w) ∧
  ((∀ k, k ≠ "url" → k ≠ "timestamp" → m1 !! k = m2 !! k) →
   add_reference' text url (Some m1) self w
   = add_reference' text url (Some m2) self w) ∧
  Context.add_message collection_add strftime text speaker None self w
  = Context.add_message collection_add strftime text speaker (Some ∅) self w.
Proof.
  split; [|split].
  - intros Hagree.
    unfold Context.add_message, Context.add_message_turn, add_conversation.
    rewrite !metadata_or_empty.
    assert (∀ ts, <["timestamp" := ts]> (<["speaker" := speaker]> m1)
                  = <["timestamp" := ts]> (<["speaker" := speaker]> m2)) as Heq
      by (intros ts; by apply stamped_metadata_agree).
    unfold bind. destruct (time_time w) as [[t|e] w1]; [|done].
    destruct (time_strftime strftime w1) as [[ts|e] w2]; [|done].
    by rewrite Heq.
  - intros Hagree.
    unfold Context.add_reference, VectorDB.add_reference.
    rewrite !metadata_or_empty.
    assert (∀ ts, <["timestamp" := ts]> (<["url" := url]> m1)
                  = <["timestamp" := ts]> (<["url" := url]> m2)) as Heq
      by (intros ts; by apply stamped_metadata_agree).
    unfold bind. destruct (time_time w) as [[t|e] w1]; [|done].
    destruct (time_strftime strftime w1) as [[ts|e] w2]; [|done].
    by rewrite Heq.
  - unfold Context.add_message, Context.add_message_turn, add_conversation.
    by rewrite metadata_or_empty.
Qed.

End MemoryMore.

(** ** The thought cycle: the search decision and the references *)

Section ThinkingMore.
Import Thinking.
Context {B : Type}.
Variable analysis_crew_run : pyval → string → B → res pyval * B.
Variable tavily_search : pyval → B → res pyval * B.
Variable response_crew_run : pyval → pyval → pyval → B → res pyval * B.

Abbreviation process_thought' :=
  (Thinking.process_thought analysis_crew_run tavily_search response_crew_run).
Abbreviation analyze' := (_analyze_context analysis_crew_run).
Abbreviation generate' := (_generate_response response_crew_run).

(** The extraction loop over results that are all dicts. *)
Lemma extract_references_dicts items (w : World B) :
  Forall (λ v, is_dict v = true) items →
  mapM (λ result,
        do title <- py_get result "title" (PStr "");
        do url <- py_get result "url" (PStr "");
        do snippet <- py_get result "snippet" (PStr "");
        ret (PDict [("title", title); ("url", url); ("snippet", snippet)]))
    items w
  = (Ret (map reference_of items), w).
Proof.
  induction 1 as [|v items Hv _ IH]; [done|].
  destruct v; try discriminate.
  cbn [mapM]. unfold bind at 1. cbn. unfold bind at 1. rewrite IH. cbn.
  unfold ret. by repeat destruct (dict_lookup _ _).
Qed.

(** The extraction loop stops at the first result that is not a dict. *)
Lemma extract_references_non_dict good v rest (w : World B) :
  Forall (λ v, is_dict v = true) good → is_dict v = false →
  mapM (λ result,
        do title <- py_get result "title" (PStr "");
        do url <- py_get result "url" (PStr "");
        do snippet <- py_get result "snippet" (PStr "");
        ret (PDict [("title", title); ("url", url); ("snippet", snippet)]))
    (good ++ v :: rest) w
  = (Raise (attribute_error v "get"), w).
Proof.
  intros Hgood Hv. induction Hgood as [|g good Hg _ IH].
  - cbn [app mapM]. by destruct v.
  - destruct g; try discriminate.
    cbn [app mapM]. unfold bind at 1. cbn. unfold bind at 1. by rewrite IH.
Qed.

Lemma analyze_context_returns context discussion (w : World B) :
  ∃ d w', analyze' context discussion w = (Ret (PDict d), w').
Proof.
  unfold _analyze_context, try_except, bind, call_backend, ret.
  destruct (analysis_crew_run context discussion (backend w)) as [[r|e] b'];
    cbn; eauto.
Qed.

Lemma search_internet_success query (w : World B) sr b' :
  tavily_search query (backend w) = (Ret sr, b') →
  _search_internet tavily_search query w
  = (Ret (PDict [("results", sr); ("status", PStr "success")]),
     MkWorld (clock w) (reads w) b').
Proof.
  intros H. unfold _search_internet, try_except, bind, call_backend, ret.
  by rewrite H.
Qed.

(** The cycle once it has decided to search for [sq]: it generates with the
    search results, then extracts the references from them. *)
Lemma search_run context discussion query (w : World B) analysis w1 sq :
  analyze' context discussion w = (Ret analysis, w1) →
  (if truthy (query_value query) then ret true
   else do a <- py_get analysis "analysis" (PDict []);
        do areas <- py_get a "areas_needing_clarification" PNone;
        ret (truthy areas)) w1 = (Ret true, w1) →
  (if truthy (query_value query) then ret (query_value query)
   else do a <- py_getitem_key analysis "analysis";
        do areas <- py_getitem_key a "areas_needing_clarification";
        py_getitem_0 areas) w1 = (Ret sq, w1) →
  ∀ sr, answers (tavily_search sq) sr →
  ∃ response w3,
    (∃ w2, generate' context analysis
             (PDict [("results", sr); ("status", PStr "success")]) w2
           = (Ret response, w3)) ∧
    ∀ items,
      py_iter sr w3 = (Ret items, w3) →
      (Forall (λ v, is_dict v = true) items →
       process_thought' context discussion query w
       = (Ret (response, map reference_of items), w3)) ∧
      (∀ good v rest,
         items = good ++ v :: rest →
         Forall (λ v, is_dict v = true) good → is_dict v = false →
         process_thought' context discussion query w
         = (Ret (PStr ("Error in thought process: "
                       +:+ exc_str (attribute_error v "get")), []), w3)).
Proof.
  intros Han Hneed Hquery sr Hsr.
  destruct (Hsr (backend w1)) as [b2 Hb2].
  destruct (generate_response_returns response_crew_run context analysis
              (PDict [("results", sr); ("status", PStr "success")])
              (MkWorld (clock w1) (reads w1) b2)) as (response & w3 & Hgen).
  exists response, w3. split; [by eauto|].
  intros items Hiter.
  assert (Thinking.process_thought_body analysis_crew_run tavily_search
            response_crew_run context discussion query w
          = bind (mapM (λ result,
                   do title <- py_get result "title" (PStr "");
                   do url <- py_get result "url" (PStr "");
                   do snippet <- py_get result "snippet" (PStr "");
                   ret (PDict [("title", title); ("url", url); ("snippet", snippet)]))
               items)
              (λ references, ret (response, references)) w3) as Hbody.
  { unfold Thinking.process_thought_body.
    erewrite bind_ret_step by exact Han.
    erewrite bind_ret_step by exact Hneed.
    erewrite bind_ret_step;
      [|erewrite bind_ret_step by exact Hquery; by apply search_internet_success].
    erewrite bind_ret_step by exact Hgen.
    cbn [truthy]. unfold py_get at 1. cbn [dict_lookup String.eqb Ascii.eqb Bool.eqb].
    cbn. unfold bind at 1. unfold bind at 1. cbn.
    by erewrite (bind_ret_step (py_iter sr)) by exact Hiter. }
  unfold Thinking.process_thought, try_except. rewrite Hbody. split.
  - intros Hall.
    by erewrite bind_ret_step by (by apply extract_references_dicts).
  - intros good v rest -> Hgood Hv.
    by erewrite bind_raise_step by (by apply extract_references_non_dict).
Qed.

Lemma explicit_query_truthy q : q ≠ "" → truthy (query_value (Some q)) = true.
Proof. intros Hq. cbn. by destruct (String.eqb_spec q ""). Qed.

(** X8. With an explicit query the cycle searches for that query, whatever
    the analysis says, and when the search answers with a list of dicts the
    references returned are those results in the backend's order, one per
    result, each reduced to its title, url and snippet, with the empty string
    for a missing one. *)
Theorem references_follow_search_results (context : pyval) (discussion q : string)
    (w : World B) (items : list pyval) :
  q ≠ "" →
  answers (tavily_search (PStr q)) (PList items) →
  Forall (λ v, is_dict v = true) items →
  ∃ response w',
    process_thought' context discussion (Some q) w
    = (Ret (response, map reference_of items), w') ∧
    length (map reference_of items) = length items.
Proof.
  intros Hq Hsr Hall.
  destruct (analyze_context_returns context discussion w) as (d & w1 & Han).
  pose proof (explicit_query_truthy q Hq) as Ht.
  destruct (search_run context discussion (Some q) w (PDict d) w1 (PStr q) Han)
    with (sr := PList items) as (response & w3 & _ & Hrun);
    [by rewrite Ht | by rewrite Ht | done |].
  exists response, w3. split; [|by rewrite length_map].
  by apply (Hrun items).
Qed.

(** X9. The reference list is all or nothing.  When the search answers with
    a list one of whose items is not a dict, or with a dict (the loop then
    runs over its keys, which are strings), the lookup of the title fails,
    and the cycle answers with the outer error text and no reference: the
    reply already generated is dropped. *)
Theorem non_dict_search_result_drops_the_reply (context : pyval)
    (discussion q : string) (w : World B) :
  q ≠ "" →
  (∀ good v rest,
     answers (tavily_search (PStr q)) (PList (good ++ v :: rest)) →
     Forall (λ v, is_dict v = true) good → is_dict v = false →
     ∃ w', process_thought' context discussion (Some q) w
           = (Ret (PStr ("Error in thought process: "
                         +:+ exc_str (attribute_error v "get")), []), w')) ∧
  (∀ k x d,
     answers (tavily_search (PStr q)) (PDict ((k, x) :: d)) →
     ∃ w', process_thought' context discussion (Some q) w
           = (Ret (PStr "Error in thought process: 'str' object has no attribute 'get'",
                   []), w')).
Proof.
  intros Hq.
  destruct (analyze_context_returns context discussion w) as (d0 & w1 & Han).
  pose proof (explicit_query_truthy q Hq) as Ht.
  split.
  - intros good v rest Hsr Hgood Hv.
    destruct (search_run context discussion (Some q) w (PDict d0) w1 (PStr q) Han)
      with (sr := PList (good ++ v :: rest)) as (response & w3 & _ & Hrun);
      [by rewrite Ht | by rewrite Ht | done |].
    exists w3. by eapply (Hrun (good ++ v :: rest)).
  - intros k x d Hsr.
    destruct (search_run context discussion (Some q) w (PDict d0) w1 (PStr q) Han)
      with (sr := PDict ((k, x) :: d)) as (response & w3 & _ & Hrun);
      [by rewrite Ht | by rewrite Ht | done |].
    exists w3.
    by apply (proj2 (Hrun (PStr k :: map (λ kv, PStr kv.1) d) eq_refl)
                [] (PStr k) (map (λ kv, PStr kv.1) d)).
Qed.

Lemma analyze_context_success context discussion (w : World B) r b1 :
  analysis_crew_run context discussion (backend w) = (Ret r, b1) →
  analyze' context discussion w
  = (Ret (PDict [("analysis", r); ("status", PStr "success")]),
     MkWorld (clock w) (reads w) b1).
Proof.
  intros H. unfold _analyze_context, try_except, bind, call_backend, ret.
  by rewrite H.
Qed.

(** X10. Without an explicit query the cycle looks for the clarification
    hints inside what the analysis crew returned; when that is not a dict
    (plain text, say) the lookup fails and the cycle answers with the outer
    error text and no reference, without calling the search or the
    generation backend: the backends are left as the analysis left them. *)
Theorem text_analysis_without_query_fails (context : pyval) (discussion : string)
    (query : option string) (w : World B) (r : pyval) (b1 : B) :
  truthy (query_value query) = false →
  analysis_crew_run context discussion (backend w) = (Ret r, b1) →
  is_dict r = false →
  process_thought' context discussion query w
  = (Ret (PStr ("Error in thought process: " +:+ exc_str (attribute_error r "get")),
          []),
     MkWorld (clock w) (reads w) b1).
Proof.
  intros Hq Han Hr.
  unfold Thinking.process_thought, try_except, Thinking.process_thought_body.
  rewrite Hq.
  erewrite bind_ret_step by (by apply analyze_context_success).
  erewrite bind_raise_step; [reflexivity|].
  erewrite bind_ret_step by reflexivity.
  apply bind_raise_step. by destruct r.
Qed.

(** X11. No search is made when there is no explicit query and the analysis
    flags nothing, because it failed or because its dict has no non-empty
    [areas_needing_clarification]: generation is called next, on the
    backends as the analysis left them, with [None] for the search results,
    and the reference list is empty. *)
Theorem no_search_without_query_or_flag (context : pyval) (discussion : string)
    (query : option string) (w : World B) :
  truthy (query_value query) = false →
  raises (analysis_crew_run context discussion) ∨
  (∃ d, answers (analysis_crew_run context discussion) (PDict d) ∧
        truthy (default PNone (dict_lookup d "areas_needing_clarification")) = false) →
  ∃ analysis w1 response w',
    analyze' context discussion w = (Ret analysis, w1) ∧
    generate' context analysis PNone w1 = (Ret response, w') ∧
    process_thought' context discussion query w = (Ret (response, []), w').
Proof.
  intros Hq Hcase.
  assert (∃ analysis w1,
            analyze' context discussion w = (Ret analysis, w1) ∧
            (do a <- py_get analysis "analysis" (PDict []);
             do areas <- py_get a "areas_needing_clarification" PNone;
             ret (truthy areas)) w1 = (Ret false, w1)) as (analysis & w1 & Han & Hneed).
  { destruct Hcase as [Hraise | (d & Hans & Hflag)].
    - destruct (analyze_context_error analysis_crew_run context discussion w Hraise)
        as (e & w1 & He).
      by eexists _, w1.
    - destruct (Hans (backend w)) as [b1 Hb1].
      eexists _, _. split; [by apply analyze_context_success|].
      cbn. unfold bind, ret. cbn.
      destruct (dict_lookup d "areas_needing_clarification"); cbn in *;
        by rewrite ?Hflag. }
  destruct (generate_response_returns response_crew_run context analysis PNone w1)
    as (response & w' & Hgen).
  exists analysis, w1, response, w'. split; [done|]. split; [done|].
  unfold Thinking.process_thought, try_except, Thinking.process_thought_body.
  rewrite Hq.
  erewrite bind_ret_step by exact Han.
  erewrite bind_ret_step by exact Hneed.
  erewrite bind_ret_step by reflexivity.
  erewrite bind_ret_step by exact Hgen.
  reflexivity.
Qed.

(** X12. Without an explicit query, when the analysis flags clarification
    needs, the search is made for the first of them, and its results become
    the references. *)
Theorem first_flagged_need_is_searched (context : pyval) (discussion : string)
    (query : option string) (w : World B) (d : list (string * pyval))
    (x : pyval) (xs items : list pyval) :
  truthy (query_value query) = false →
  answers (analysis_crew_run context discussion) (PDict d) →
  dict_lookup d "areas_needing_clarification" = Some (PList (x :: xs)) →
  answers (tavily_search x) (PList items) →
  Forall (λ v, is_dict v = true) items →
  ∃ response w',
    process_thought' context discussion query w
    = (Ret (response, map reference_of items), w').
Proof.
  intros Hq Hans Hflag Hsr Hall.
  destruct (Hans (backend w)) as [b1 Hb1].
  destruct (search_run context discussion query w
              (PDict [("analysis", PDict d); ("status", PStr "success")])
              (MkWorld (clock w) (reads w) b1) x)
    with (sr := PList items) as (response & w3 & _ & Hrun).
  - by apply analyze_context_success.
  - rewrite Hq. cbn. unfold bind, ret. cbn. by rewrite Hflag.
  - rewrite Hq. cbn. unfold bind, ret. cbn. by rewrite Hflag.
  - done.
  - exists response, w3. by apply (Hrun items).
Qed.

End ThinkingMore.

(** ** The listener: what a collection cycle gathers *)

Section ListenerMore.
Import Listener.

Lemma omap_cons {A B} (f : A → option B) x l :
  omap f (x :: l) = match f x with Some y => y :: omap f l | None => omap f l end.
Proof. reflexivity. Qed.

Lemma collect_reads env n : ∀ i audio_data,
  collect env n i audio_data
  = audio_data ++ filter (λ f, f ≠ [])
                    (omap (get_at env) (seq i (iterations_run env n i))).
Proof.
  induction n as [|n IH]; intros i audio_data; cbn [collect iterations_run].
  - by rewrite app_nil_r.
  - destruct (flag_at env i); cbn [negb]; [|by rewrite app_nil_r].
    cbn [seq]. rewrite omap_cons.
    destruct (get_at env i) as [chunk|]; [|apply IH].
    rewrite filter_cons.
    destruct (Z.ltb_spec 0 (Z.of_nat (length chunk))) as [Hpos|Hpos].
    + rewrite IH, <- app_assoc. cbn [app].
      case_decide as Hn; [done|].
      destruct chunk; [cbn in Hpos; lia|]. done.
    + rewrite IH. case_decide as Hn; [|done].
      destruct chunk; [done|]. cbn in Hpos. lia.
Qed.

Lemma iterations_run_le env n : ∀ i, iterations_run env n i ≤ n.
Proof.
  induction n as [|n IH]; intros i; cbn; [lia|].
  destruct (flag_at env i); [|lia]. specialize (IH (S i)). lia.
Qed.

Lemma iterations_run_flag env n : ∀ i j,
  i ≤ j → j < i + iterations_run env n i → flag_at env j = true.
Proof.
  induction n as [|n IH]; intros i j Hij Hj; cbn in Hj; [lia|].
  destruct (flag_at env i) eqn:Hi; [|lia].
  destruct (decide (j = i)) as [->|]; [done|].
  apply (IH (S i)); lia.
Qed.

Lemma iterations_run_stops env n : ∀ i,
  iterations_run env n i < n → flag_at env (i + iterations_run env n i) = false.
Proof.
  induction n as [|n IH]; intros i Hlt; cbn in *; [lia|].
  destruct (flag_at env i) eqn:Hi.
  - replace (i + S (iterations_run env n (S i)))
      with (S i + iterations_run env n (S i)) by lia.
    apply IH. lia.
  - by rewrite Nat.add_0_r.
Qed.

(** X13. The collecting loop reads the queue once per iteration until the
    iteration bound is reached or the flag is found clear, and gathers, in
    the order read, exactly the non-empty frames those reads yielded: a
    timeout or an empty frame uses up an iteration and contributes nothing,
    and nothing is read from the iteration on at which the flag is clear. *)
Theorem collect_gathers_the_frames_read_while_listening (sr : Z) (env : CycleEnv)
    (strip : string → string) :
  let k := iterations_run env (iterations sr) 0 in
  collected (cycle strip sr env)
  = filter (λ f, f ≠ []) (omap (get_at env) (seq 0 k)) ∧
  k ≤ iterations sr ∧
  (∀ j, j < k → flag_at env j = true) ∧
  (k < iterations sr → flag_at env k = false).
Proof.
  cbn zeta. rewrite cycle_collected, collect_reads. cbn [app].
  split; [done|]. split; [apply iterations_run_le|]. split.
  - intros j Hj. apply (iterations_run_flag env (iterations sr) 0 j); lia.
  - intros Hlt. by apply (iterations_run_stops env (iterations sr) 0).
Qed.

Lemma length_concat_uniform {A} (k : nat) (ls : list (list A)) :
  Forall (λ l, length l = k) ls → length (concat ls) = k * length ls.
Proof.
  induction 1 as [|l ls Hl _ IH]; cbn; [lia|].
  rewrite length_app, IH, Hl. lia.
Qed.

(** X14. With the block size of the input stream, 1024 samples a frame, one
    cycle gathers at most [1024 * int(sample_rate * 2 / 1024)] samples,
    which is never more than two seconds of audio, and at 16 kHz always
    less (31 frames, 1.984 s). *)
Theorem cycle_gathers_at_most_two_seconds (sr : Z) (env : CycleEnv)
    (strip : string → string) :
  (0 ≤ sr)%Z →
  (∀ i f, get_at env i = Some f → length f = 1024) →
  (total_samples (collected (cycle strip sr env))
   ≤ 1024 * Z.of_nat (iterations sr))%Z ∧
  (total_samples (collected (cycle strip sr env)) ≤ 2 * sr)%Z ∧
  (sr = 16000%Z →
   (total_samples (collected (cycle strip sr env)) ≤ 31744)%Z ∧
   (total_samples (collected (cycle strip sr env)) < 2 * sr)%Z).
Proof.
  intros Hsr Hblock.
  assert (Forall (λ f, length f = 1024) (collected (cycle strip sr env))) as Hall.
  { rewrite cycle_collected, collect_reads. cbn [app].
    apply Forall_forall. intros f [_ (j & _ & Hj)%list_elem_of_omap]%list_elem_of_filter.
    by eapply Hblock. }
  assert (length (collected (cycle strip sr env)) ≤ iterations sr) as Hlen.
  { rewrite cycle_collected.
    destruct (collect_appends env (iterations sr) 0 []) as (more & -> & Hle & _).
    done. }
  pose proof (length_concat_uniform 1024 _ Hall) as Hsum.
  assert (1024 * Z.of_nat (iterations sr) ≤ 2 * sr)%Z as Hbound.
  { unfold iterations. rewrite Z2Nat.id by (apply Z.quot_pos; lia).
    pose proof (Z.mul_quot_le (sr * 2) 1024). lia. }
  unfold total_samples. rewrite Hsum, Nat2Z.inj_mul.
  change (Z.of_nat 1024) with 1024%Z.
  apply Nat2Z.inj_le in Hlen. unfold Frame in *.
  split; [lia|]. split; [lia|].
  intros ->. change (iterations 16000) with 31 in *. lia.
Qed.

End ListenerMore.

(** ** The speaker: stopping the worker *)

Section SpeakerMore.
Import SpeakerQueue.

Lemma played_snoc t e :
  played (t ++ [e]) = played t ++ match e with PlayStart x => [x] | _ => [] end.
Proof. unfold played. rewrite omap_app. by destruct e. Qed.

Lemma step_keeps_stopped a self :
  is_speaking self = false → is_speaking (step a self) = false.
Proof.
  intros Hs. destruct a as [text| |c p]; cbn [step].
  - unfold speak. by destruct (String.eqb text "").
  - done.
  - unfold worker_step.
    destruct (worker self); rewrite ?Hs; cbn; try done;
      try (by destruct c); try (by destruct p).
    destruct (speech_queue self) as [|text rest]; [done|].
    by destruct (String.eqb text "").
Qed.

(** One move, once the flag is clear: what can still be taken off the queue
    and what can still be played does not grow. *)
Lemma step_after_stop a self :
  is_speaking self = false →
  length (dequeued (trace (step a self)))
  + match worker (step a self) with AtGet => 1 | _ => 0 end
  ≤ length (dequeued (trace self))
    + match worker self with AtGet => 1 | _ => 0 end ∧
  length (played (trace (step a self)))
  + match worker (step a self) with AtGet | AtConvert _ => 1 | _ => 0 end
  ≤ length (played (trace self))
    + match worker self with AtGet | AtConvert _ => 1 | _ => 0 end.
Proof.
  intros Hs. destruct a as [text| |c p]; cbn [step].
  - unfold speak. destruct (String.eqb text ""); [lia|].
    cbn [emit trace worker]. rewrite dequeued_snoc, played_snoc, !app_nil_r. lia.
  - cbn [stop trace worker]. lia.
  - unfold worker_step. destruct (worker self) as [| |text|text| |] eqn:Hpc.
    + rewrite Hs. cbn [goto trace worker]. lia.
    + destruct (speech_queue self) as [|text rest]; [cbn [goto trace worker]; lia|].
      destruct (String.eqb text "");
        cbn [goto emit trace worker];
        rewrite dequeued_snoc, played_snoc, !length_app; cbn [length]; lia.
    + destruct c; cbn [goto emit trace worker];
        rewrite dequeued_snoc, played_snoc, !length_app; cbn [length]; lia.
    + destruct p; cbn [goto emit trace worker];
        rewrite dequeued_snoc, played_snoc, !length_app; cbn [length]; lia.
    + cbn [goto trace worker]. lia.
    + rewrite Hpc. lia.
Qed.

Lemma run_after_stop schedule : ∀ self,
  is_speaking self = false →
  is_speaking (run schedule self) = false ∧
  length (dequeued (trace (run schedule self)))
  ≤ length (dequeued (trace self))
    + match worker self with AtGet => 1 | _ => 0 end ∧
  length (played (trace (run schedule self)))
  ≤ length (played (trace self))
    + match worker self with AtGet | AtConvert _ => 1 | _ => 0 end.
Proof.
  induction schedule as [|a schedule IH]; intros self Hs.
  - cbn [run fold_left]. split; [done|]. lia.
  - change (run (a :: schedule) self) with (run schedule (step a self)).
    destruct (IH (step a self) (step_keeps_stopped a self Hs)) as (Hf & Hd & Hp).
    destruct (step_after_stop a self Hs) as [Hd1 Hp1].
    split; [done|]. lia.
Qed.

(** X15. After [stop()] the worker lets at most one more item through,
    whatever is enqueued afterwards and however long it keeps running: it
    finishes the item it holds, takes one more item off the queue only if it
    was already inside [get] when the flag was cleared, and starts at most
    one more playback.  The flag stays clear: nothing in the speaker sets it
    again but [start()]. *)
Theorem stop_lets_at_most_one_more_item_through (before after : list Action) :
  let self := run before started in
  let self' := run after (stop self) in
  is_speaking self' = false ∧
  length (dequeued (trace self'))
  ≤ length (dequeued (trace self))
    + match worker self with AtGet => 1 | _ => 0 end ∧
  length (dequeued (trace self')) ≤ length (dequeued (trace self)) + 1 ∧
  length (played (trace self')) ≤ length (played (trace self)) + 1.
Proof.
  cbn zeta.
  destruct (run_after_stop after (stop (run before started)) eq_refl)
    as (Hf & Hd & Hp).
  cbn [stop trace worker] in Hd, Hp.
  split; [done|]. split; [done|].
  destruct (worker (run before started)); lia.
Qed.

End SpeakerMore.

(** ** The text helpers: sanitizing and chunking *)

Section HelpersMore.
Import Helpers.

Lemma lstrip_word w rest : is_word w → lstrip (w +:+ rest) = w +:+ rest.
Proof.
  intros [Hne Hw]. destruct w as [|c w]; [done|].
  cbn in Hw. apply andb_true_iff in Hw as [Hc _]. apply negb_true_iff in Hc.
  rewrite append_cons. cbn [lstrip]. by rewrite Hc.
Qed.

Lemma rstrip_no_space w : no_space w = true → rstrip w = w.
Proof.
  induction w as [|c w IH]; [done|]. cbn [no_space rstrip].
  intros [Hc Hw]%andb_true_iff. apply negb_true_iff in Hc.
  rewrite (IH Hw), Hc. by destruct w.
Qed.

Lemma rstrip_append s t : t ≠ "" → rstrip t = t → rstrip (s +:+ t) = s +:+ t.
Proof.
  intros Hne Ht. induction s as [|c s IH]; [done|].
  rewrite append_cons. cbn [rstrip]. rewrite IH.
  destruct (s +:+ t) eqn:Hst; [|done].
  destruct s; [by rewrite append_nil_l in Hst | discriminate].
Qed.

Lemma join_nonempty w words : w ≠ "" → join " " (w :: words) ≠ "".
Proof.
  intros Hne. destruct words as [|w' words]; [done|].
  rewrite join_cons2. by destruct w.
Qed.

Lemma rstrip_join words : Forall is_word words → rstrip (join " " words) = join " " words.
Proof.
  induction 1 as [|w words [Hne Hw] Hall IH]; [done|].
  destruct words as [|w' words]; [by apply rstrip_no_space|].
  rewrite join_cons2.
  change (String " " (join " " (w' :: words)))
    with (" " +:+ join " " (w' :: words)).
  rewrite <- append_assoc. apply rstrip_append; [|done].
  apply Forall_cons in Hall as [[Hne' _] _]. by apply join_nonempty.
Qed.

Lemma lstrip_join words : Forall is_word words → lstrip (join " " words) = join " " words.
Proof.
  intros Hall. destruct Hall as [|w words Hw Hall]; [done|].
  destruct words as [|w' words].
  - cbn [join]. rewrite <- (append_nil_r w). by apply lstrip_word.
  - rewrite join_cons2. by apply lstrip_word.
Qed.

(** [strip] does nothing to words joined by single blanks. *)
Lemma strip_join words : Forall is_word words → strip (join " " words) = join " " words.
Proof. intros H. unfold strip. by rewrite rstrip_join, lstrip_join. Qed.

Lemma all_chars_append test s1 s2 :
  all_chars test (s1 +:+ s2) = all_chars test s1 && all_chars test s2.
Proof.
  induction s1 as [|c s1 IH]; [done|]. rewrite append_cons. cbn.
  by rewrite IH, andb_assoc.
Qed.

Lemma split_from_all_chars test text : ∀ cur,
  all_chars test cur = true → all_chars test text = true →
  Forall (λ w, all_chars test w = true) (split_from cur text).
Proof.
  induction text as [|c text IH]; intros cur Hcur Htext; cbn [split_from].
  - destruct (String.eqb cur ""); by repeat constructor.
  - cbn in Htext. apply andb_true_iff in Htext as [Hc Htext].
    destruct (is_space c).
    + destruct (String.eqb cur ""); [by apply IH|]. constructor; [done|]. by apply IH.
    + apply IH; [|done]. rewrite all_chars_append, Hcur. cbn. by rewrite Hc.
Qed.

Lemma join_all_chars test words :
  test " "%char = true →
  Forall (λ w, all_chars test w = true) words →
  all_chars test (join " " words) = true.
Proof.
  intros Hsp. induction 1 as [|w words Hw Hall IH]; [done|].
  destruct words as [|w' words]; [done|].
  rewrite join_cons2, all_chars_append, Hw. cbn [all_chars andb].
  by rewrite Hsp, IH.
Qed.

Section SanitizeFacts.
Variable word_char : ascii → bool.

Lemma remove_special_kept text :
  all_chars (kept word_char) (remove_special word_char text) = true.
Proof.
  induction text as [|c text IH]; [done|]. cbn [remove_special].
  destruct (kept word_char c) eqn:Hc; [|done]. cbn. by rewrite Hc.
Qed.

Lemma remove_special_id text :
  all_chars (kept word_char) text = true → remove_special word_char text = text.
Proof.
  induction text as [|c text IH]; [done|]. cbn.
  intros [-> Ht]%andb_true_iff. by rewrite IH.
Qed.

Lemma kept_blank : kept word_char " " = true.
Proof. unfold kept. change (is_space " ") with true. by rewrite orb_true_r. Qed.

(** X16. [sanitize_text] returns its text in a normal form: only characters
    of the classes the pattern lets through, words separated by single
    blanks, no blank at either end.  The words are those of the text once the
    other characters are removed; the final [strip()] has nothing left to
    do; and sanitizing twice is sanitizing once. *)
Theorem sanitize_text_normal_form (text : string) :
  let clean := sanitize_text word_char text in
  clean = join " " (split (remove_special word_char text)) ∧
  split clean = split (remove_special word_char text) ∧
  clean = join " " (split clean) ∧
  all_chars (kept word_char) clean = true ∧
  strip clean = clean ∧
  sanitize_text word_char clean = clean.
Proof.
  cbn zeta. unfold sanitize_text.
  pose proof (split_words (remove_special word_char text)) as Hwords.
  rewrite (strip_join _ Hwords).
  assert (all_chars (kept word_char)
            (join " " (split (remove_special word_char text))) = true) as Hkept.
  { apply join_all_chars; [apply kept_blank|].
    apply split_from_all_chars; [done | apply remove_special_kept]. }
  split; [done|]. split; [by apply split_join|].
  split; [by rewrite split_join|]. split; [done|].
  split; [by apply strip_join|].
  rewrite (remove_special_id _ Hkept), split_join by done.
  by apply strip_join.
Qed.

End SanitizeFacts.

(** The chunks already made are a prefix of the result. *)
Lemma chunk_loop_prefix words : ∀ size chunks cur cur_size,
  chunk_loop words size chunks cur cur_size
  = chunks ++ chunk_loop words size [] cur cur_size.
Proof.
  induction words as [|word rest IH]; intros size chunks cur cur_size;
    cbn [chunk_loop].
  - destruct cur; [by rewrite app_nil_r | done].
  - destruct (size <? cur_size + (len word + 1))%Z.
    + rewrite IH, (IH size ([] ++ _)). by rewrite <- app_assoc.
    + apply IH.
Qed.

(** While everything fits, the loop only extends the current chunk. *)
Lemma chunk_loop_fits words : ∀ size cur cur_size,
  cur_size = size_of cur →
  (size_of cur + size_of words ≤ size)%Z →
  chunk_loop words size [] cur cur_size
  = match cur ++ words with
    | [] => []
    | _ => [join " " (cur ++ words)]
    end.
Proof.
  induction words as [|word rest IH]; intros size cur cur_size -> Hfits;
    cbn [chunk_loop].
  - rewrite app_nil_r. by destruct cur.
  - cbn [size_of] in Hfits. pose proof (size_of_nonneg rest).
    destruct (Z.ltb_spec size (size_of cur + (len word + 1))) as [|_]; [lia|].
    rewrite (IH size (cur ++ [word])).
    + rewrite <- app_assoc. cbn [app]. by destruct cur.
    + rewrite size_of_app. cbn. lia.
    + rewrite size_of_app. cbn. lia.
Qed.

(** X17. A text without any word gives no chunk.  A text whose words, each
    counted with one blank after it, add up to at most [chunk_size] gives a
    single chunk, its words joined by single blanks; as the blank after the
    last word is counted too, that chunk is strictly shorter than
    [chunk_size]. *)
Theorem chunk_text_single_chunk (text : string) (chunk_size : Z) :
  (split text = [] → chunk_text text chunk_size = []) ∧
  (split text ≠ [] → (size_of (split text) ≤ chunk_size)%Z →
   chunk_text text chunk_size = [join " " (split text)] ∧
   (len (join " " (split text)) < chunk_size)%Z).
Proof.
  unfold chunk_text. split.
  - by intros ->.
  - intros Hne Hfits.
    rewrite (chunk_loop_fits (split text) chunk_size [] 0 eq_refl) by (cbn; lia).
    cbn [app]. split; [by destruct (split text)|].
    rewrite len_join by done. lia.
Qed.

Lemma join_words_nonempty words :
  words ≠ [] → Forall is_word words → join " " words ≠ "".
Proof.
  intros Hne Hall. destruct Hall as [|w words [Hw _] _]; [done|].
  by apply join_nonempty.
Qed.

(** Once the current chunk holds a word, every chunk made from then on is
    non-empty. *)
Lemma chunk_loop_nonempty words : ∀ size cur cur_size,
  cur ≠ [] → Forall is_word cur → Forall is_word words →
  Forall (λ chunk, chunk ≠ "") (chunk_loop words size [] cur cur_size).
Proof.
  induction words as [|word rest IH]; intros size cur cur_size Hne Hcur Hwords;
    cbn [chunk_loop].
  - destruct cur as [|w cur]; [done|]. cbn [app].
    repeat constructor. by apply join_words_nonempty.
  - apply Forall_cons in Hwords as [Hword Hrest].
    destruct (size <? cur_size + (len word + 1))%Z.
    + rewrite chunk_loop_prefix. cbn [app]. constructor.
      * by apply join_words_nonempty.
      * apply IH; [done | by apply Forall_singleton | done].
    + apply IH; [by destruct cur | | done].
      apply Forall_app. split; [done|]. by apply Forall_singleton.
Qed.

(** X18. [chunk_text] makes an empty chunk in one case only: when the very
    first word does not fit ([len(word) + 1 > chunk_size]), the loop flushes
    the still empty current chunk, and the result starts with the empty
    string.  Every other chunk is non-empty. *)
Theorem chunk_text_empty_chunk_only_first (text : string) (chunk_size : Z) :
  let chunks := chunk_text text chunk_size in
  (∀ i chunk, chunks !! i = Some chunk → chunk = "" → i = 0) ∧
  (head chunks = Some "" ↔
   ∃ w rest, split text = w :: rest ∧ (chunk_size < len w + 1)%Z).
Proof.
  cbn zeta. unfold chunk_text.
  pose proof (split_words text) as Hwords.
  destruct (split text) as [|w rest] eqn:Hsplit.
  - cbn. split; [done|]. split; [done|]. by intros (? & ? & ? & _).
  - apply Forall_cons in Hwords as [Hw Hrest].
    cbn [chunk_loop].
    destruct (Z.ltb_spec chunk_size (0 + (len w + 1))) as [Hbig|Hfits].
    + rewrite chunk_loop_prefix. cbn [app join].
      pose proof (chunk_loop_nonempty rest chunk_size [w] (len w + 1)
                    ltac:(done) ltac:(by apply Forall_singleton) Hrest) as Hne.
      split.
      * intros [|i] chunk Hi Hc; [done|]. cbn in Hi.
        rewrite Forall_forall in Hne. exfalso. eapply Hne; [|exact Hc].
        by eapply list_elem_of_lookup_2.
      * split; [|done]. intros _. exists w, rest. split; [done|]. lia.
    + pose proof (chunk_loop_nonempty rest chunk_size ([] ++ [w]) (0 + (len w + 1))
                    ltac:(done) ltac:(by apply Forall_singleton) Hrest) as Hne.
      rewrite Forall_forall in Hne. split.
      * intros i chunk Hi Hc. exfalso. eapply Hne; [|exact Hc].
        by eapply list_elem_of_lookup_2.
      * split.
        -- intros Hhead. exfalso. eapply (Hne ""); [|done].
           by apply head_Some_elem_of.
        -- intros (w' & rest' & Heq & Hbig). injection Heq as <- <-. lia.
Qed.

End HelpersMore.

(** ** The search engine (search.py) *)

Section SearchMore.
Import Thinking Search.
Context {B : Type}.
Variable client_search : SearchParams → B → res pyval * B.
Variable isoformat : Z → string.

Abbreviation search' := (Search.search client_search isoformat).
Abbreviation batch_search' := (Search.batch_search client_search isoformat).

(** [search] always returns, with the entry it appended to the history. *)
Lemma search_appends query depth max_results include exclude self (w : World B) :
  ∃ response self' w',
    search' query depth max_results include exclude self w
    = (Ret (response, self'), w') ∧
    search_history self' = search_history self ++ [response_record response] ∧
    item_query (response_record response) = query.
Proof.
  unfold Search.search, try_except, bind, call_backend, time_time, ret.
  destruct (client_search _ (backend w)) as [[results|e] b']; cbn.
  - destruct (truthy results); [|by eexists _, _, _].
    destruct results; cbn; by eexists _, _, _.
  - by eexists _, _, _.
Qed.

(** X20. [search] never raises and keeps a complete log: every call appends
    exactly one entry, carrying the call's query, to the history, and
    returns that entry in its response.  A client failure becomes an error
    response with the exception's text; so does a truthy client answer that
    has no length (the count of the results fails), although the client had
    answered.  For a list the recorded count is its length. *)
Theorem search_logs_every_call (query depth : string) (max_results : Z)
    (include exclude : option (list string)) (self : SearchEngine) (w : World B) :
  let params :=
    MkSearchParams query depth max_results (given include) (given exclude) in
  ∃ response self' w',
    search' query depth max_results include exclude self w
    = (Ret (response, self'), w') ∧
    search_history self' = search_history self ++ [response_record response] ∧
    item_query (response_record response) = query ∧
    (∀ e b', client_search params (backend w) = (Raise e, b') →
             response
             = Failure (ErrorRecord (exc_str e) query (isoformat (clock w (reads w))))) ∧
    (∀ items b', client_search params (backend w) = (Ret (PList items), b') →
                 response
                 = Success (PList items)
                     (SearchRecord (isoformat (clock w (reads w))) query params
                        (Z.of_nat (length items)))) ∧
    (∀ n b', client_search params (backend w) = (Ret (PInt n), b') → n ≠ 0%Z →
             response
             = Failure (ErrorRecord "object of type 'int' has no len()" query
                          (isoformat (clock w (S (reads w)))))).
Proof.
  cbn zeta.
  destruct (search_appends query depth max_results include exclude self w)
    as (response & self' & w' & Hrun & Hhist & Hq).
  exists response, self', w'. split; [done|]. split; [done|]. split; [done|].
  revert Hrun.
  unfold Search.search, try_except, bind, call_backend, time_time, ret.
  destruct (client_search _ (backend w)) as [[results|e] b'] eqn:Hc; cbn.
  - intros Hrun. split; [intros ? ? [=]|]. split.
    + intros items b'' [= -> <-]. cbn in Hrun.
      destruct items; cbn in Hrun; by injection Hrun as <- _ _.
    + intros n b'' [= -> <-] Hn. cbn in Hrun.
      destruct (Z.eqb_spec n 0) as [|_]; [done|]. cbn in Hrun.
      by injection Hrun as <- _ _.
  - intros Hrun. split.
    + intros e' b'' [= <- <-]. by injection Hrun as <- _ _.
    + split; intros ? ? [=].
Qed.

Lemma batch_search_run queries : ∀ depth max_results include exclude self (w : World B),
  ∃ responses self' w',
    batch_search' queries depth max_results include exclude self w
    = (Ret (responses, self'), w') ∧
    search_history self' = search_history self ++ map response_record responses ∧
    map (λ r, item_query (response_record r)) responses = queries.
Proof.
  induction queries as [|query rest IH]; intros depth max_results include exclude self w.
  - exists [], self, w. cbn. by rewrite app_nil_r.
  - destruct (search_appends query depth max_results include exclude self w)
      as (response & self1 & w1 & Hrun & Hhist & Hq).
    destruct (IH depth max_results include exclude self1 w1)
      as (responses & self2 & w2 & Hrest & Hhist2 & Hqs).
    exists (response :: responses), self2, w2.
    cbn [Search.batch_search].
    erewrite bind_ret_step by exact Hrun. cbn [fst snd].
    erewrite bind_ret_step by exact Hrest. cbn [fst snd].
    split; [done|]. split.
    + rewrite Hhist2, Hhist, <- app_assoc. done.
    + cbn. by rewrite Hq, Hqs.
Qed.

(** X21. [batch_search] never raises and answers query by query: it
    returns one response per query, in the order of the queries, and the
    history gains exactly the entries of these responses, in that order,
    after the entries it had. *)
Theorem batch_search_answers_in_query_order (queries : list string)
    (depth : string) (max_results : Z) (include exclude : option (list string))
    (self : SearchEngine) (w : World B) :
  ∃ responses self' w',
    batch_search' queries depth max_results include exclude self w
    = (Ret (responses, self'), w') ∧
    length responses = length queries ∧
    map (λ r, item_query (response_record r)) responses = queries ∧
    search_history self' = search_history self ++ map response_record responses.
Proof.
  destruct (batch_search_run queries depth max_results include exclude self w)
    as (responses & self' & w' & Hrun & Hhist & Hqs).
  exists responses, self', w'. split; [done|].
  split; [|done].
  apply (f_equal length) in Hqs. by rewrite length_map in Hqs.
Qed.

End SearchMore.

Section HistoryMore.
Import Search.
Variable lower : string → string.

(** X22. [get_search_history] returns a part of the history, in the
    history's order.  With a non-empty filter every entry returned matches
    it; an empty filter filters nothing.  A positive limit keeps the last
    [limit] matching entries; no limit and a limit of 0 both keep all of
    them; a negative limit drops the first [-limit] of them instead of
    bounding the result. *)
Theorem get_search_history_limits (limit : option Z) (query_filter : option string)
    (self : SearchEngine) :
  let matching := get_search_history lower None query_filter self in
  let history := get_search_history lower limit query_filter self in
  sublist history (search_history self) ∧
  (∀ f, query_filter = Some f → f ≠ "" →
        Forall (λ item, matches lower f item = true) history) ∧
  (query_filter = None ∨ query_filter = Some "" → matching = search_history self) ∧
  (limit = None ∨ limit = Some 0%Z → history = matching) ∧
  (∀ n, limit = Some n → (0 < n)%Z →
        history = drop (length matching - Z.to_nat n) matching ∧
        length history = min (Z.to_nat n) (length matching)) ∧
  (∀ n, limit = Some n → (n < 0)%Z →
        history = drop (Z.to_nat (- n)) matching).
Proof.
  cbn zeta. unfold get_search_history.
  set (matching := match query_filter with
                   | Some f => if String.eqb f "" then search_history self
                               else filter (λ item, matches lower f item = true)
                                      (search_history self)
                   | None => search_history self
                   end).
  assert (sublist matching (search_history self)) as Hsub.
  { subst matching. destruct query_filter as [f|]; [|done].
    destruct (String.eqb f ""); [done | apply sublist_filter]. }
  assert (∀ k, sublist (drop k matching) (search_history self)) as Hdrop.
  { intros k. etrans; [apply sublist_drop | exact Hsub]. }
  split.
  { destruct limit as [n|]; [|done].
    destruct (n =? 0)%Z; [done|]. unfold last_items.
    destruct (0 <? n)%Z; apply Hdrop. }
  split.
  { intros f -> Hf. subst matching.
    destruct (String.eqb_spec f "") as [|_]; [done|].
    assert (Forall (λ item, matches lower f item = true)
              (filter (λ item, matches lower f item = true) (search_history self)))
      as Hall by (apply Forall_forall; by intros item [? _]%list_elem_of_filter).
    destruct limit as [n|]; [|done].
    destruct (n =? 0)%Z; [done|]. unfold last_items.
    destruct (0 <? n)%Z; by apply Forall_drop. }
  split; [by intros [-> | ->]|].
  split; [by intros [-> | ->]|].
  split.
  - intros n -> Hn. destruct (Z.eqb_spec n 0) as [|_]; [lia|].
    unfold last_items. destruct (Z.ltb_spec 0 n) as [_|]; [|lia].
    split; [done|]. rewrite length_drop. lia.
  - intros n -> Hn. destruct (Z.eqb_spec n 0) as [|_]; [lia|].
    unfold last_items. by destruct (Z.ltb_spec 0 n) as [|_]; [lia|].
Qed.

End HistoryMore.

(** *** Analyzing the results of a search *)

Section AnalyzeMore.
Import Thinking Search.
Context {C : Type}.

Lemma split_on_cons (sep : ascii) (s : string) :
  ∃ part parts, split_on sep s = part :: parts.
Proof.
  induction s as [|c s (part & parts & IH)]; cbn [split_on]; [eauto|].
  destruct (Ascii.eqb c sep); [eauto|]. rewrite IH. eauto.
Qed.

Lemma split_on_no_slash (a : string) :
  no_slash a = true → split_on "/" a = [a].
Proof.
  induction a as [|c a IH]; cbn [no_slash split_on]; [done|].
  intros [Hc Ha]%andb_true_iff. apply negb_true_iff in Hc. rewrite Hc.
  by rewrite (IH Ha).
Qed.

Lemma split_on_slash (a rest : string) :
  no_slash a = true →
  split_on "/" (a +:+ String "/" rest) = a :: split_on "/" rest.
Proof.
  induction a as [|c a IH]; intros Ha.
  - by rewrite append_nil_l.
  - cbn [no_slash] in Ha. apply andb_true_iff in Ha as [Hc Ha].
    apply negb_true_iff in Hc. rewrite append_cons. cbn [split_on].
    rewrite Hc. by rewrite (IH Ha).
Qed.

Lemma py_contains_dict (key : string) (d : list (string * pyval)) (w : World C) :
  py_contains key (PDict d) w = (Ret (bool_decide (is_Some (dict_lookup d key))), w).
Proof. done. Qed.

Lemma tally_result_dict (analysis : Tally) (item : pyval) (w : World C) :
  result_dict item →
  tally_result analysis item w
  = (Ret (MkTally (total_results analysis)
            (list_to_set (map domain_of (option_list (url_of item))) ∪ domains analysis)
            (topics analysis ++ option_list (field "title" item))
            (summary analysis ++ option_list (field "snippet" item))), w).
Proof.
  intros (d & -> & Hurl).
  unfold tally_result, url_of, field, py_contains, py_getitem_key, bind, ret, raise.
  destruct analysis as [total ds ts sm]. cbn [total_results domains topics summary].
  destruct (dict_lookup d "url") as [u|] eqn:Hu;
    [destruct (Hurl u eq_refl) as [s ->]|];
    destruct (dict_lookup d "title") as [title|] eqn:Htitle;
    destruct (dict_lookup d "snippet") as [snippet|] eqn:Hsnippet;
    cbn; rewrite ?Hu, ?Htitle, ?Hsnippet; cbn;
    rewrite ?app_nil_r; repeat f_equal; set_solver.
Qed.

Lemma tally_eq (total : Z) (ds ds' : gset string) (ts ts' sm sm' : list pyval)
    (w : World C) :
  ds = ds' → ts = ts' → sm = sm' →
  (Ret (MkTally total ds ts sm), w) = (Ret (MkTally total ds' ts' sm'), w).
Proof. by intros -> -> ->. Qed.

Lemma foldM_result_dicts (items : list pyval) : ∀ (analysis : Tally) (w : World C),
  Forall result_dict items →
  foldM tally_result items analysis w
  = (Ret (MkTally (total_results analysis)
            (list_to_set (map domain_of (omap url_of items)) ∪ domains analysis)
            (topics analysis ++ omap (field "title") items)
            (summary analysis ++ omap (field "snippet") items)), w).
Proof.
  induction items as [|item items IH]; intros analysis w Hitems.
  - destruct analysis as [total ds ts sm]. cbn. unfold ret.
    apply tally_eq; [set_solver | by rewrite app_nil_r..].
  - apply Forall_cons in Hitems as [Hitem Hitems]. cbn [foldM].
    rewrite (bind_ret_step _ _ w _ w (tally_result_dict analysis item w Hitem)).
    rewrite (IH _ w Hitems). cbn [total_results domains topics summary].
    rewrite !omap_cons.
    destruct (url_of item), (field "title" item), (field "snippet" item);
      cbn [option_list map]; rewrite <- ?app_assoc, ?app_nil_r; cbn [app];
      (apply tally_eq; [set_solver | done..]).
Qed.

Lemma tally_result_pure (analysis : Tally) (item : pyval) (w : World C) :
  (tally_result analysis item w).2 = w.
Proof.
  unfold tally_result, py_contains, py_getitem_key, bind, ret, raise.
  destruct item; cbn; repeat case_match; simplify_eq; done.
Qed.

Lemma foldM_tally_pure (items : list pyval) : ∀ (analysis : Tally) (w : World C),
  (foldM tally_result items analysis w).2 = w.
Proof.
  induction items as [|item items IH]; intros analysis w; [done|].
  cbn [foldM]. unfold bind.
  pose proof (tally_result_pure analysis item w) as Hpure.
  destruct (tally_result analysis item w) as [[t|e] w1]; cbn in Hpure; subst w1;
    [apply IH | done].
Qed.

Lemma py_len_pure (v : pyval) (w : World C) : (py_len v w).2 = w.
Proof. by destruct v. Qed.

Lemma py_iter_pure (v : pyval) (w : World C) : (py_iter v w).2 = w.
Proof. by destruct v. Qed.

Lemma foldM_raises (good : list pyval) (v : pyval) (rest : list pyval) (e : pyexc) :
  ∀ (analysis : Tally) (w : World C),
  Forall result_dict good →
  (∀ analysis', tally_result analysis' v w = (Raise e, w)) →
  foldM tally_result (good ++ v :: rest) analysis w = (Raise e, w).
Proof.
  induction good as [|item good IH]; intros analysis w Hgood Hv.
  - cbn [app foldM]. by rewrite (bind_raise_step _ _ w e w (Hv analysis)).
  - apply Forall_cons in Hgood as [Hitem Hgood]. cbn [app foldM].
    rewrite (bind_ret_step _ _ w _ w (tally_result_dict analysis item w Hitem)).
    by apply IH.
Qed.

Lemma tally_result_bad_url (analysis : Tally) (d : list (string * pyval)) (u : pyval)
    (w : World C) :
  dict_lookup d "url" = Some u → (∀ s, u ≠ PStr s) →
  tally_result analysis (PDict d) w = (Raise (attribute_error u "split"), w).
Proof.
  intros Hu Hstr. unfold tally_result.
  rewrite (bind_ret_step _ _ w _ w (py_contains_dict "url" d w)).
  rewrite bool_decide_eq_true_2 by eauto.
  unfold py_getitem_key, bind, ret, raise. rewrite Hu.
  destruct u; try done. by destruct (Hstr s).
Qed.

Lemma tally_result_plain_key (analysis : Tally) (k : string) (w : World C) :
  contains "url" k = false → contains "title" k = false →
  contains "snippet" k = false →
  tally_result analysis (PStr k) w = (Ret analysis, w).
Proof.
  intros Hurl Htitle Hsnippet.
  unfold tally_result, py_contains, bind, ret. by rewrite Hurl, Htitle, Hsnippet.
Qed.

Lemma foldM_plain_keys (d : list (string * pyval)) : ∀ (analysis : Tally) (w : World C),
  Forall (λ kv, contains "url" kv.1 = false ∧ contains "title" kv.1 = false ∧
                contains "snippet" kv.1 = false) d →
  foldM tally_result (map (λ kv, PStr kv.1) d) analysis w = (Ret analysis, w).
Proof.
  induction d as [|kv d IH]; intros analysis w Hd; [done|].
  apply Forall_cons in Hd as [(Hurl & Htitle & Hsnippet) Hd]. cbn [map foldM].
  rewrite (bind_ret_step _ _ w _ w
             (tally_result_plain_key analysis kv.1 w Hurl Htitle Hsnippet)).
  by apply IH.
Qed.

(** X25. On a successful response whose results are a list of dicts (the
    url of each, when it has one, a string), [analyze_results] counts the
    results, collects the domain of every url into a set, and lists the
    titles and the snippets of the results that have one, in the order of
    the results; it changes nothing. *)
Theorem analyze_results_of_result_dicts (items : list pyval)
    (metadata : HistoryItem) (w : World C) :
  Forall result_dict items →
  analyze_results (Success (PList items) metadata) w
  = (Ret (Analyzed (Z.of_nat (length items))
            (list_to_set (map domain_of (omap url_of items)))
            (omap (field "title") items)
            (omap (field "snippet") items)), w).
Proof.
  intros Hitems. unfold analyze_results, try_except, py_len, py_iter.
  rewrite (bind_ret_step _ _ w (Z.of_nat (length items)) w) by reflexivity.
  rewrite (bind_ret_step _ _ w items w) by reflexivity.
  rewrite (bind_ret_step _ _ w _ w (foldM_result_dicts items _ w Hitems)).
  unfold ret. cbn [total_results domains topics summary app].
  repeat f_equal. set_solver.
Qed.

(** X26. [analyze_results] never raises on a response of [search] and
    changes nothing.  An error response is refused as invalid.  The analysis
    is all or nothing: one result whose url is not a string loses the
    analysis of all the others, and an answer that has no length (the
    [None] that [search] had counted as zero results) is an error too. *)
Theorem analyze_results_never_raises (results : SearchResponse) (w : World C) :
  ∃ analysis,
    analyze_results results w = (Ret analysis, w) ∧
    (∀ error_response, results = Failure error_response →
       analysis = AnalysisError "Invalid search results provided") ∧
    (∀ good d u rest metadata,
       results = Success (PList (good ++ PDict d :: rest)) metadata →
       Forall result_dict good →
       dict_lookup d "url" = Some u → (∀ s, u ≠ PStr s) →
       analysis = AnalysisError ("Error analyzing results: "
                                 +:+ exc_str (attribute_error u "split"))) ∧
    (∀ metadata, results = Success PNone metadata →
       analysis = AnalysisError
                    "Error analyzing results: object of type 'NoneType' has no len()").
Proof.
  destruct results as [found metadata|error_response].
  2:{ eexists. split; [reflexivity|]. by repeat split. }
  assert (∃ analysis, analyze_results (Success found metadata) w = (Ret analysis, w))
    as [analysis Hrun].
  { unfold analyze_results, try_except, bind, ret.
    pose proof (py_len_pure found w) as Hlen.
    destruct (py_len found w) as [[total|e] w1]; cbn in Hlen; subst w1; [|eauto].
    pose proof (py_iter_pure found w) as Hiter.
    destruct (py_iter found w) as [[items|e] w1]; cbn in Hiter; subst w1; [|eauto].
    pose proof (foldM_tally_pure items (MkTally total ∅ [] []) w) as Hpure.
    destruct (foldM tally_result items (MkTally total ∅ [] []) w) as [[t|e] w1];
      cbn in Hpure; subst w1; eauto. }
  exists analysis. split; [exact Hrun|]. split; [done|]. split.
  - intros good d u rest metadata' [= -> ->] Hgood Hu Hstr.
    unfold analyze_results, try_except, py_len, py_iter in Hrun.
    rewrite (bind_ret_step _ _ w (Z.of_nat (length (good ++ PDict d :: rest))) w)
      in Hrun by reflexivity.
    rewrite (bind_ret_step _ _ w (good ++ PDict d :: rest) w) in Hrun by reflexivity.
    rewrite (bind_raise_step _ _ w (attribute_error u "split") w) in Hrun
      by (apply foldM_raises; [done|];
          intros analysis'; by apply tally_result_bad_url).
    unfold ret in Hrun. by injection Hrun as <-.
  - intros metadata' [= -> ->]. cbn in Hrun. unfold ret in Hrun.
    by injection Hrun as <-.
Qed.

(** X27. When the client answers with a dict, the loop runs over its keys:
    unless a key's name contains "url", "title" or "snippet", the analysis
    succeeds with the number of keys as the number of results and with no
    domain, topic or summary point, whatever the dict holds. *)
Theorem analyze_results_of_a_dict_counts_keys (d : list (string * pyval))
    (metadata : HistoryItem) (w : World C) :
  Forall (λ kv, contains "url" kv.1 = false ∧ contains "title" kv.1 = false ∧
                contains "snippet" kv.1 = false) d →
  analyze_results (Success (PDict d) metadata) w
  = (Ret (Analyzed (Z.of_nat (length d)) ∅ [] []), w).
Proof.
  intros Hd. unfold analyze_results, try_except, py_len, py_iter.
  rewrite (bind_ret_step _ _ w (Z.of_nat (length d)) w) by reflexivity.
  rewrite (bind_ret_step _ _ w (map (λ kv, PStr kv.1) d) w) by reflexivity.
  by rewrite (bind_ret_step _ _ w _ w (foldM_plain_keys d _ w Hd)).
Qed.

(** X28. The domain taken from a url is the third of the pieces its
    slashes cut it into, when there are at least three, and the whole url
    otherwise: the host for "scheme://host" and "scheme://host/path", but the
    whole url for a url with fewer than two slashes, and the second path
    segment for a url without a scheme. *)
Theorem domain_of_is_third_piece (a b c tail : string) :
  no_slash a = true → no_slash b = true → no_slash c = true →
  domain_of (a +:+ "/" +:+ b +:+ "/" +:+ c) = c ∧
  domain_of (a +:+ "/" +:+ b +:+ "/" +:+ c +:+ "/" +:+ tail) = c ∧
  domain_of a = a ∧
  domain_of (a +:+ "/" +:+ b) = a +:+ "/" +:+ b.
Proof.
  intros Ha Hb Hc. unfold domain_of.
  change ("/" +:+ ?s) with (String "/" s).
  repeat split.
  - rewrite ?append_cons, ?append_nil_l, !split_on_slash, split_on_no_slash by done. done.
  - rewrite ?append_cons, ?append_nil_l, !split_on_slash by done.
    destruct (split_on_cons "/" tail) as (part & parts & ->). done.
  - by rewrite split_on_no_slash.
  - rewrite ?append_cons, ?append_nil_l, !split_on_slash, split_on_no_slash by done. done.
Qed.

End AnalyzeMore.

(** ** Loading the configuration (helpers.py) *)

Section ConfigMore.
Import Thinking Config.
Context {FS : Type}.
Variable path_exists : string → FS → bool.
Variable open_read : string → FS → res string * FS.
Variable json_load : string → res pyval.
Variable yaml_load : string → res pyval.

Abbreviation load_config' := (load_config path_exists open_read json_load yaml_load).

Lemma ends_with_suffix (s suffix : string) :
  ends_with s suffix = true ↔ ∃ prefix, s = prefix +:+ suffix.
Proof.
  split.
  - induction s as [|a s IH]; cbn [ends_with].
    + destruct (String.eqb "" suffix) eqn:Heq; [|done].
      apply String.eqb_eq in Heq as <-. by exists "".
    + destruct (String.eqb (String a s) suffix) eqn:Heq.
      * apply String.eqb_eq in Heq as <-. by exists "".
      * intros [prefix ->]%IH. exists (String a prefix). by rewrite append_cons.
  - intros [prefix ->]. induction prefix as [|a prefix IH].
    + rewrite append_nil_l. destruct suffix; cbn [ends_with]; by rewrite String.eqb_refl.
    + rewrite append_cons. cbn [ends_with]. rewrite IH. by destruct (String.eqb _ _).
Qed.

Lemma parse_run {A} (r : res A) (w : World FS) : parse r w = (r, w).
Proof. by destruct r. Qed.

(** X23. [load_config] never raises and never reads the clock.  It answers
    with the empty dict when the file is missing (the file system is then
    left alone), when it cannot be opened or read, when its name ends in
    none of ".json", ".yaml", ".yml", and when the parser fails: a broken
    configuration cannot be told from an empty one.  Otherwise it answers
    with what the parser chosen by the suffix returns, ".json" first. *)
Theorem load_config_never_raises (config_path : string) (w : World FS) :
  ∃ config w',
    load_config' config_path w = (Ret config, w') ∧
    clock w' = clock w ∧ reads w' = reads w ∧
    (path_exists config_path (backend w) = false → config = PDict [] ∧ w' = w) ∧
    (∀ e fs', open_read config_path (backend w) = (Raise e, fs') → config = PDict []) ∧
    (∀ content fs',
       path_exists config_path (backend w) = true →
       open_read config_path (backend w) = (Ret content, fs') →
       (ends_with config_path ".json" = true →
        config = match json_load content with Ret d => d | Raise _ => PDict [] end) ∧
       (ends_with config_path ".json" = false →
        ends_with config_path ".yaml" = true ∨ ends_with config_path ".yml" = true →
        config = match yaml_load content with Ret d => d | Raise _ => PDict [] end) ∧
       ((∀ prefix, config_path ≠ prefix +:+ ".json") →
        (∀ prefix, config_path ≠ prefix +:+ ".yaml") →
        (∀ prefix, config_path ≠ prefix +:+ ".yml") →
        config = PDict [])).
Proof.
  unfold load_config, try_except, bind, call_backend, ret, raise.
  destruct w as [clk n fs]. cbn.
  destruct (path_exists config_path fs) eqn:Hfound; cbn.
  2:{ eexists _, _. split; [reflexivity|]. cbn. repeat split; try done. }
  destruct (open_read config_path fs) as [[content|e] fs1] eqn:Hopen; cbn.
  2:{ eexists _, _. split; [reflexivity|]. cbn. repeat split; try done. }
  destruct (ends_with config_path ".json") eqn:Hjson.
  { rewrite parse_run. destruct (json_load content) as [d|e] eqn:Hload;
      (eexists _, _; split; [reflexivity|]; cbn;
       split; [done|]; split; [done|]; split; [done|]; split; [done|];
       intros content' fs' _ [= <- <-]; rewrite Hload;
       split; [done|]; split; [done|];
       intros Hno; exfalso;
       apply ends_with_suffix in Hjson as [prefix ->]; by apply (Hno prefix)). }
  destruct (ends_with config_path ".yaml" || ends_with config_path ".yml") eqn:Hyaml.
  { rewrite parse_run. destruct (yaml_load content) as [d|e] eqn:Hload;
      (eexists _, _; split; [reflexivity|]; cbn;
       split; [done|]; split; [done|]; split; [done|]; split; [done|];
       intros content' fs' _ [= <- <-]; rewrite Hload;
       split; [done|]; split; [done|];
       intros _ Hno1 Hno2; exfalso;
       apply orb_true_iff in Hyaml as [H|H];
       apply ends_with_suffix in H as [prefix ->];
       [by apply (Hno1 prefix) | by apply (Hno2 prefix)]). }
  eexists _, _. split; [reflexivity|]. cbn.
  split; [done|]. split; [done|]. split; [done|]. split; [done|].
  intros content' fs' _ [= <- <-]. split; [done|]. split; [|done].
  intros _ [H|H]; apply orb_false_iff in Hyaml as [? ?]; congruence.
Qed.

End ConfigMore.

(** ** The transcriber's callback (app.py) *)

Section AppMore.
Import VectorDB Context App.
Context {Chroma : Type}.
Variable collection_add :
  partition → string → gmap string string → string → Chroma → res unit * Chroma.
Variable strftime : Z → string.

Abbreviation handle_speech_input' := (handle_speech_input collection_add strftime).

(** X24. [handle_speech_input] never raises, and always records the
    transcript and the time of the call.  Either the turn, spoken by
    "Human", entered the recency window, the conversation history shown is
    the summary of the new window, and one reply task for the text is handed
    to the event loop; or the store refused the turn, and then the manager
    is unchanged, no reply task is scheduled, the conversation history
    shown stays as it was, and only the error message tells: the utterance
    is dropped.  When the store accepts every document the first is the
    case. *)
Theorem handle_speech_input_contains_store_failure (text : string)
    (manager : ContextManager) (session : Session) (w : World Chroma) :
  ∃ manager' session' w',
    handle_speech_input' text manager session w = (Ret (manager', session'), w') ∧
    last_transcript session' = text ∧
    last_update session' = clock w (reads w) ∧
    let stored :=
      scheduled session' = scheduled session ++ [text] ∧
      error_message session' = error_message session ∧
      (∃ turn, msg_text turn = text ∧ msg_speaker turn = "Human" ∧
               window manager' =
               (if (max_recent_messages manager
                    <? Z.of_nat (length (window manager ++ [turn])))%Z
                then drop 1 (window manager ++ [turn])
                else window manager ++ [turn])) ∧
      (∃ s, conversation_history session' = Some s ∧
            message_count s = length (window manager')) in
    let dropped :=
      manager' = manager ∧
      scheduled session' = scheduled session ∧
      conversation_history session' = conversation_history session ∧
      (∃ e, error_message session'
            = Some ("Error handling speech input: " +:+ exc_str e)) in
    (stored ∨ dropped) ∧
    (add_never_raises collection_add → stored).
Proof.
  unfold handle_speech_input.
  set (w1 := MkWorld (clock w) (S (reads w)) (backend w)).
  set (w2 := MkWorld (clock w) (S (S (reads w))) (backend w)).
  rewrite (bind_ret_step _ _ w (clock w (reads w)) w1) by reflexivity.
  unfold try_except.
  rewrite (bind_ret_step _ _ w1 (clock w (S (reads w))) w2) by reflexivity.
  unfold Context.add_message.
  destruct (add_message_turn collection_add strftime text "Human"
              (Some {["timestamp" := pretty (clock w (S (reads w)))]}) manager w2)
    as [[[turn manager1]|e] w3] eqn:Hadd.
  - rewrite (bind_ret_step _ _ w2 (msg_id turn, manager1) w3)
      by (by rewrite (bind_ret_step _ _ w2 (turn, manager1) w3)).
    destruct (get_conversation_summary_counts (Chroma:=Chroma) manager1 w3)
      as (s & w4 & Hsum & Hcount & _).
    cbn [snd]. rewrite (bind_ret_step _ _ w3 s w4) by exact Hsum.
    apply add_message_turn_inv in Hadd as (Htext & Hspeaker & _ & _ & Hwin).
    eexists _, _, _. split; [reflexivity|]. cbn.
    split; [done|]. split; [done|].
    assert (∃ turn0, msg_text turn0 = text ∧ msg_speaker turn0 = "Human" ∧
              window manager1 =
              (if (max_recent_messages manager
                   <? Z.of_nat (length (window manager ++ [turn0])))%Z
               then drop 1 (window manager ++ [turn0])
               else window manager ++ [turn0])) as Hturn by eauto.
    split; [left|intros _]; (split; [done|]; split; [done|]; split; [done|]; eauto).
  - rewrite (bind_raise_step _ _ w2 e w3)
      by (by rewrite (bind_raise_step _ _ w2 e w3)).
    eexists _, _, _. split; [reflexivity|]. cbn.
    split; [done|]. split; [done|]. split.
    + right. repeat split; eauto.
    + intros Hok.
      destruct (add_message_turn_returns collection_add strftime text "Human"
                  (Some {["timestamp" := pretty (clock w (S (reads w)))]}) manager w2 Hok)
        as (? & ? & ? & Hret). congruence.
Qed.

End AppMore.
